(** * Sensitivity & Scenario Analysis Tool ([app.py]): a shallow embedding

    The script is one top-to-bottom computation over the values of its
    widgets: the base calculations, the sensitivity sweep, the scenario
    recomputation and the scenario comparison.  Python's [float] and
    NumPy's [float64] are IEEE-754 binary64 numbers, here Rocq's primitive
    [float] (specified by [SpecFloat]); Python's [int] is [Z]; a raised
    exception is the [Raise] branch of a small error monad.

    Addition, subtraction, multiplication and division are the IEEE
    operations.  The one operation that IEEE does not fix, the power of
    line 42, is a parameter [pow] of the model: the general statements
    hold for every [pow], the numerical ones for every [pow] accurate to
    one unit in the last place, and the concrete runs take the correctly
    rounded power [pow_cr]. *)

From Stdlib Require Import ZArith List Bool Lia String Floats.
Import ListNotations.

#[local] Open Scope float_scope.

(** ** Exceptions *)

Inductive exn : Set :=
| OverflowError
| ZeroDivisionError
| ValueError.

Inductive py (A : Type) : Type :=
| Ok (a : A)
| Raise (e : exn).

Arguments Ok {A} a.
Arguments Raise {A} e.

Definition bind {A B : Type} (c : py A) (k : A -> py B) : py B :=
  match c with
  | Ok a => k a
  | Raise e => Raise e
  end.

Notation "x <- c ;; k" := (bind c (fun x => k))
  (at level 61, c at next level, right associativity).

(** [[f(x) for x in l]], left to right, stopping at the first exception. *)
Fixpoint for_each {A B : Type} (f : A -> py B) (l : list A) : py (list B) :=
  match l with
  | [] => Ok []
  | x :: rest =>
      y <- f x ;;
      ys <- for_each f rest ;;
      Ok (y :: ys)
  end.

(** ** Numbers *)

(** [float(z)]: the binary64 number nearest to the integer [z] (ties to
    even).  Every integer a Streamlit widget returns lies within
    [-(2^53-1) .. 2^53-1], where the conversion is exact; CPython raises
    OverflowError only from [2^1024] on. *)
Definition of_int (z : Z) : float :=
  SF2Prim (binary_normalize prec emax z 0 false).

(** [a / b] on two ints, for a non-zero [b] (the script only divides by the
    literal [100]): the binary64 quotient of the two conversions. *)
Definition int_truediv (a b : Z) : float := of_int a / of_int b.

(** [x / y] on two Python floats raises on a zero divisor. *)
Definition float_truediv (x y : float) : py float :=
  if y =? 0 then Raise ZeroDivisionError else Ok (x / y).

(** [x / y] with a NumPy [float64] on the left never raises (a zero divisor
    gives an infinity or a NaN, and a warning). *)
Definition np_truediv (x y : float) : py float := Ok (x / y).

(** The built-in [sum]: [0 + l[0] + l[1] + ...], from left to right.
    (From CPython 3.12 on, a list of floats is summed with a correction
    term; a list of one item is returned unchanged either way, and NumPy
    scalars are always added from left to right.) *)
Definition sum (l : list float) : float := fold_left add l (of_int 0).

(** The integers [0, 1, ..., n-1] of [range(n)]. *)
Definition range (n : Z) : list Z := map Z.of_nat (seq 0 (Z.to_nat n)).

(** [numpy.linspace(start, stop, num)] on int bounds: [num] samples
    [start + i * step] with [step = (stop - start) / (num - 1)], the last
    one replaced by [stop] itself. *)
Definition linspace (start stop num : Z) : py (list float) :=
  if (num <? 0)%Z then Raise ValueError
  else
    let div := (num - 1)%Z in
    let delta := of_int stop - of_int start in
    let sample (i : Z) : float :=
      if (0 <? div)%Z then
        let step := delta / of_int div in
        if (i =? div)%Z then of_int stop
        else if step =? 0 then of_int i / of_int div * delta + of_int start
        else of_int i * step + of_int start
      else of_int i * delta + of_int start in
    Ok (map sample (range num)).

(** A correctly rounded [x ** n] for a finite non-zero [x] and an integer
    [n >= 1]: the exact power of the mantissa, rounded once.  It is the
    reference instance of the platform's [pow] on the arguments this script
    passes (bases 1.01 .. 1.20, exponents 1 .. years). *)
Definition pow_cr (x : float) (n : Z) : float :=
  match Prim2SF x, n with
  | S754_finite s m e, Zpos p =>
      SF2Prim (binary_round prec emax (s && Z.odd (Zpos p)) (Pos.pow m p) (e * Zpos p))
  | _, _ => nan
  end.

(** ** The widgets *)

(** The values of the input widgets (lines 17-31). [discount_slider] is the
    slider's percent value, before the division by 100 of line 30. *)
Record Inputs : Set := {
  sales_units : Z;
  price_per_unit : float;
  variable_cost_per_unit : float;
  fixed_cost : float;
  tax_rate : Z;
  initial_investment : float;
  discount_slider : Z;
  years : Z
}.

(** An int that a [number_input] or a [slider] can return: Streamlit keeps
    ints within [-(2^53-1) .. 2^53-1], whatever bounds the script gives. *)
Definition widget_int (z : Z) : Prop := (- (2 ^ 53 - 1) <= z <= 2 ^ 53 - 1)%Z.

(** An amount entered in a float [number_input] with [min_value=0.0]. *)
Definition amount (x : float) : Prop :=
  (0 <=? x) = true /\ (x <? infinity) = true.

(** What the widgets of lines 17-31 can deliver. *)
Record valid_inputs (i : Inputs) : Prop := {
  valid_sales : (1 <= sales_units i <= 2 ^ 53 - 1)%Z;
  valid_price : amount (price_per_unit i);
  valid_vc : amount (variable_cost_per_unit i);
  valid_fc : amount (fixed_cost i);
  valid_tax : (0 <= tax_rate i <= 50)%Z;
  valid_investment : amount (initial_investment i);
  valid_discount : (1 <= discount_slider i <= 20)%Z;
  valid_years : (1 <= years i <= 2 ^ 53 - 1)%Z
}.

(** The two sliders of the sensitivity section (lines 72 and 74):
    the range 0, 5, ..., 50 and the steps 3, 5, ..., 11. *)
Definition sensitivity_range_values : list Z := [0; 5; 10; 15; 20; 25; 30; 35; 40; 45; 50]%Z.
Definition sensitivity_steps_values : list Z := [3; 5; 7; 9; 11]%Z.

Inductive factor : Set := Sales | Price | VariableCost | FixedCost.

Definition factor_name (f : factor) : string :=
  match f with
  | Sales => "Sales"
  | Price => "Price"
  | VariableCost => "Variable Cost"
  | FixedCost => "Fixed Cost"
  end.

Definition factors : list factor := [Sales; Price; VariableCost; FixedCost].

Inductive scenario : Set := BaseCase | BestCase | WorstCase | CustomScenario.

(** ** Results *)

(** The [adj_*] variables of lines 105-110 and 190-195. *)
Record Adjusted : Set := {
  adj_revenue : float;
  adj_ebit : float;
  adj_net_income : float;
  adj_cash_flows : list float;
  adj_discounted_cash_flows : list float;
  adj_npv : float
}.

(** One entry of [sensitivity_results]. *)
Record SensitivityRow : Set := {
  Factor : factor;
  Change : float;
  NPV : float
}.

(** The text of a metric's delta: a formatted number or a fixed string. *)
Inductive delta_text : Set :=
| Percent (x : float)
| Text (s : string).

Section App.

(** The platform's [pow(x, (double) n)]. *)
Variable pow : float -> Z -> float.

(** [x ** n] for a finite base above 1 and an int [n >= 1]: CPython hands
    both to the platform's [pow] and raises OverflowError when the result
    is infinite ([1.2 ** 4000] raises "Numerical result out of range"). *)
Definition float_pow (x : float) (n : Z) : py float :=
  let r := pow x n in
  if is_infinity r && is_finite x then Raise OverflowError else Ok r.

Definition discount_rate (i : Inputs) : float := int_truediv (discount_slider i) 100.

(** [[cf / (1 + discount_rate)**(i+1) for i, cf in enumerate(cfs)]], the
    enumeration counted from [i]; [div] is the division of the flows' type. *)
Fixpoint discount (div : float -> float -> py float) (rate : float) (i : Z)
  (cfs : list float) : py (list float) :=
  match cfs with
  | [] => Ok []
  | cf :: rest =>
      p <- float_pow (1 + rate) (i + 1) ;;
      d <- div cf p ;;
      ds <- discount div rate (i + 1) rest ;;
      Ok (d :: ds)
  end.

(** Lines 34-38. *)
Definition revenue (i : Inputs) : float :=
  of_int (sales_units i) * price_per_unit i.

Definition total_variable_cost (i : Inputs) : float :=
  of_int (sales_units i) * variable_cost_per_unit i.

Definition ebit (i : Inputs) : float :=
  revenue i - total_variable_cost i - fixed_cost i.

Definition tax_paid (i : Inputs) : float :=
  if 0 <? ebit i then ebit i * int_truediv (tax_rate i) 100 else of_int 0.

Definition net_income (i : Inputs) : float := ebit i - tax_paid i.

(** The net income of lines 107 and 192 at the base values: what the
    recomputation makes of an unchanged ebit. *)
Definition untaxed_share (i : Inputs) : float :=
  if 0 <? ebit i then ebit i * (1 - int_truediv (tax_rate i) 100) else ebit i.

(** Lines 41-43. *)
Definition cash_flows (i : Inputs) : list float :=
  map (fun _ => net_income i) (range (years i)).

Definition discounted_cash_flows (i : Inputs) : py (list float) :=
  discount float_truediv (discount_rate i) 0 (cash_flows i).

Definition npv (i : Inputs) : py float :=
  dcf <- discounted_cash_flows i ;;
  Ok (sum dcf - initial_investment i).

(** Lines 105-110 and, word for word, lines 190-195. *)
Definition recalculate (div : float -> float -> py float) (i : Inputs)
  (adj_sales adj_price adj_vc adj_fc : float) : py Adjusted :=
  let adj_revenue := adj_sales * adj_price in
  let adj_ebit := adj_revenue - (adj_sales * adj_vc) - adj_fc in
  let adj_net_income :=
    if 0 <? adj_ebit then adj_ebit * (1 - int_truediv (tax_rate i) 100) else adj_ebit in
  let adj_cash_flows := repeat adj_net_income (Z.to_nat (years i)) in
  adj_discounted_cash_flows <- discount div (discount_rate i) 0 adj_cash_flows ;;
  let adj_npv := sum adj_discounted_cash_flows - initial_investment i in
  Ok {| adj_revenue := adj_revenue; adj_ebit := adj_ebit;
        adj_net_income := adj_net_income; adj_cash_flows := adj_cash_flows;
        adj_discounted_cash_flows := adj_discounted_cash_flows; adj_npv := adj_npv |}.

(** Lines 83-102: the four adjusted values with only [f] changed by
    [pct_change] percent. *)
Definition perturb (i : Inputs) (f : factor) (pct_change : float)
  : float * float * float * float :=
  match f with
  | Sales =>
      (of_int (sales_units i) * (1 + pct_change / 100),
       price_per_unit i, variable_cost_per_unit i, fixed_cost i)
  | Price =>
      (of_int (sales_units i),
       price_per_unit i * (1 + pct_change / 100), variable_cost_per_unit i, fixed_cost i)
  | VariableCost =>
      (of_int (sales_units i),
       price_per_unit i, variable_cost_per_unit i * (1 + pct_change / 100), fixed_cost i)
  | FixedCost =>
      (of_int (sales_units i),
       price_per_unit i, variable_cost_per_unit i, fixed_cost i * (1 + pct_change / 100))
  end.

(** Lines 82-116: the body of the inner loop, one row. *)
Definition sensitivity_row (i : Inputs) (f : factor) (pct_change : float)
  : py SensitivityRow :=
  let '(adj_sales, adj_price, adj_vc, adj_fc) := perturb i f pct_change in
  a <- recalculate np_truediv i adj_sales adj_price adj_vc adj_fc ;;
  Ok {| Factor := f; Change := pct_change; NPV := adj_npv a |}.

(** Lines 77-116: the two nested loops. *)
Definition sensitivity_results (i : Inputs) (sensitivity_range sensitivity_steps : Z)
  : py (list SensitivityRow) :=
  rows <- for_each
            (fun f =>
               grid <- linspace (- sensitivity_range) sensitivity_range sensitivity_steps ;;
               for_each (sensitivity_row i f) grid)
            factors ;;
  Ok (List.concat rows).

(** Lines 154-181: the percentage deltas of the selected scenario;
    [custom] holds the four number inputs of the Custom Scenario. *)
Definition changes (s : scenario) (custom : factor -> Z) : factor -> Z :=
  match s with
  | BestCase => fun f =>
      match f with
      | Sales => 20 | Price => 10 | VariableCost => -10 | FixedCost => -5
      end
  | WorstCase => fun f =>
      match f with
      | Sales => -15 | Price => -5 | VariableCost => 10 | FixedCost => 10
      end
  | CustomScenario => custom
  | BaseCase => fun _ => 0
  end%Z.

(** Lines 184-187. *)
Definition adjust_int (base : Z) (change : Z) : float :=
  of_int base * (1 + int_truediv change 100).

Definition adjust (base : float) (change : Z) : float :=
  base * (1 + int_truediv change 100).

(** Lines 184-195. *)
Definition scenario_financials (i : Inputs) (changes : factor -> Z) : py Adjusted :=
  let adj_sales := adjust_int (sales_units i) (changes Sales) in
  let adj_price := adjust (price_per_unit i) (changes Price) in
  let adj_vc := adjust (variable_cost_per_unit i) (changes VariableCost) in
  let adj_fc := adjust (fixed_cost i) (changes FixedCost) in
  recalculate float_truediv i adj_sales adj_price adj_vc adj_fc.

(** The four [adj_*] inputs of lines 184-187, by factor. *)
Definition adjusted_value (i : Inputs) (changes : factor -> Z) (g : factor) : float :=
  match g with
  | Sales => adjust_int (sales_units i) (changes Sales)
  | Price => adjust (price_per_unit i) (changes Price)
  | VariableCost => adjust (variable_cost_per_unit i) (changes VariableCost)
  | FixedCost => adjust (fixed_cost i) (changes FixedCost)
  end.

(** Lines 206-208: the label and the delta of the Profitability Change
    metric; [Percent x] stands for the text of [x] with one decimal and a
    percent sign. *)
Definition profitability_label (adj_npv npv : float) : string :=
  if npv <? adj_npv then "Improved" else "Worsened".

Definition profitability_delta (adj_npv npv : float) : py delta_text :=
  if negb (npv =? 0) then
    q <- float_truediv (adj_npv - npv) (abs npv) ;;
    Ok (Percent (q * 100))
  else Ok (Text "N/A").

(** What one run of the script computes for the page. *)
Record Page : Set := {
  page_npv : float;
  page_sensitivity : list SensitivityRow;
  page_scenario : Adjusted;
  page_npv_delta : float;
  page_label : string;
  page_delta : delta_text
}.

(** The script, top to bottom. *)
Definition app (i : Inputs) (sensitivity_range sensitivity_steps : Z)
  (s : scenario) (custom : factor -> Z) : py Page :=
  npv <- npv i ;;
  sensitivity_results <- sensitivity_results i sensitivity_range sensitivity_steps ;;
  a <- scenario_financials i (changes s custom) ;;
  let label := profitability_label (adj_npv a) npv in
  delta <- profitability_delta (adj_npv a) npv ;;
  Ok {| page_npv := npv; page_sensitivity := sensitivity_results;
        page_scenario := a; page_npv_delta := adj_npv a - npv;
        page_label := label; page_delta := delta |}.

End App.

(** The example of the form's default values (lines 17-31). *)
Definition example_inputs : Inputs :=
  {| sales_units := 1000; price_per_unit := 50; variable_cost_per_unit := 20;
     fixed_cost := 5000; tax_rate := 20; initial_investment := 20000;
     discount_slider := 10; years := 5 |}.

(** The default values with a tax rate of 41 % and a one-year horizon:
    an input on which the two net-income formulas round differently.
    With one year the only power taken is [x ** 1], which is [x] on every
    platform, and the sum has a single term. *)
Definition rounding_inputs : Inputs :=
  {| sales_units := 1000; price_per_unit := 50; variable_cost_per_unit := 20;
     fixed_cost := 5000; tax_rate := 41; initial_investment := 20000;
     discount_slider := 10; years := 1 |}.

(** [num] evenly spaced samples from [-r] to [r]: sample [k] is
    [-r + k * step] with [step = (r - (-r)) / (num - 1)], the last one [r]. *)
Definition even_grid (r num : Z) : list float :=
  let step := (of_int r - of_int (- r)) / of_int (num - 1) in
  map (fun k : Z => if (k =? num - 1)%Z then of_int r
                    else of_int k * step + of_int (- r))
      (range num).

(** Each sample is below the next ([strict]) or at most the next. *)
Fixpoint increasing (strict : bool) (l : list float) : bool :=
  match l with
  | x :: (y :: _) as rest =>
      (if strict then x <? y else x <=? y) && increasing strict rest
  | _ => true
  end.

(** The base value of a factor, and the value the sweep gives it in a row
    of factor [f]: changed by [pct_change] percent if it is [f] itself,
    left alone otherwise. *)
Definition base_value (i : Inputs) (g : factor) : float :=
  match g with
  | Sales => of_int (sales_units i)
  | Price => price_per_unit i
  | VariableCost => variable_cost_per_unit i
  | FixedCost => fixed_cost i
  end.

Definition factor_eqb (f g : factor) : bool :=
  match f, g with
  | Sales, Sales | Price, Price | VariableCost, VariableCost | FixedCost, FixedCost => true
  | _, _ => false
  end.

Definition swept_value (i : Inputs) (f : factor) (pct_change : float) (g : factor) : float :=
  if factor_eqb f g then base_value i g * (1 + pct_change / 100) else base_value i g.

(** [pow x n] is the correctly rounded power or one of its two binary64
    neighbours: a platform [pow] accurate to one unit in the last place. *)
Definition pow_faithful (pow : float -> Z -> float) (x : float) (n : Z) : Prop :=
  pow x n = next_down (pow_cr x n)
  \/ pow x n = pow_cr x n
  \/ pow x n = next_up (pow_cr x n).

(** [x] shows as [target] once rounded to cents. *)
Definition rounds_to_cents (x target : float) : bool :=
  abs (x - target) <=? of_int 5 / of_int 1000.

(** The default values at a discount rate of 20 % over 4200 years: a
    valid input whose last discount factor, 1.2 ** 4200, is beyond the
    binary64 range. *)
Definition long_horizon_inputs : Inputs :=
  {| sales_units := 1000; price_per_unit := 50; variable_cost_per_unit := 20;
     fixed_cost := 5000; tax_rate := 20; initial_investment := 20000;
     discount_slider := 20; years := 4200 |}.

(** A valid input whose base NPV is exactly zero: nothing sold at a price,
    nothing invested. *)
Definition zero_npv_inputs : Inputs :=
  {| sales_units := 1; price_per_unit := 0; variable_cost_per_unit := 0;
     fixed_cost := 0; tax_rate := 20; initial_investment := 0;
     discount_slider := 10; years := 5 |}.

(** ** Tables *)

(** A column of a DataFrame: strings, ints or floats. *)
Inductive column : Set :=
| Labels (l : list string)
| Ints (l : list Z)
| Values (l : list float).

Definition column_length (c : column) : nat :=
  match c with
  | Labels l => List.length l
  | Ints l => List.length l
  | Values l => List.length l
  end.

(** A dict of columns. Keys keep the order of their first insertion, and
    setting a key that is present replaces its value in place: this is how
    a dict display with a repeated key evaluates. *)
Definition frame : Set := list (string * column).

Fixpoint dict_set (d : frame) (k : string) (v : column) : frame :=
  match d with
  | [] => [(k, v)]
  | (k', v') :: rest =>
      if String.eqb k' k then (k', v) :: rest else (k', v') :: dict_set rest k v
  end.

Fixpoint dict_get (d : frame) (k : string) : option column :=
  match d with
  | [] => None
  | (k', v) :: rest => if String.eqb k' k then Some v else dict_get rest k
  end.

(** [pd.DataFrame(d)] for a dict of sequences: the columns in the dict's
    order; sequences of different lengths raise ValueError. *)
Definition DataFrame (d : frame) : py frame :=
  match d with
  | [] => Ok []
  | (_, c) :: rest =>
      if forallb (fun kc => Nat.eqb (column_length (snd kc)) (column_length c)) rest
      then Ok d else Raise ValueError
  end.

(** The number of rows of a frame. *)
Definition rows (d : frame) : nat :=
  match d with
  | [] => O
  | (_, c) :: _ => column_length c
  end.

(** [range(a, b)]. *)
Definition range_from (a b : Z) : list Z :=
  map (fun k => (a + Z.of_nat k)%Z) (seq 0 (Z.to_nat (b - a))).

(** [df.melt(id_vars=id)] for a frame whose other columns are floats: one
    row (id, variable, value) per cell, column after column. *)
Definition melt (id : string) (d : frame) : list (string * string * float) :=
  match dict_get d id with
  | Some (Labels ids) =>
      flat_map
        (fun kc =>
           match snd kc with
           | Values vs => map (fun mv => (fst mv, fst kc, snd mv)) (combine ids vs)
           | _ => []
           end)
        (filter (fun kc => negb (String.eqb (fst kc) id)) d)
  | _ => []
  end.

(** The options of the radio of line 150. *)
Definition scenario_name (s : scenario) : string :=
  match s with
  | BaseCase => "Base Case"
  | BestCase => "Best Case"
  | WorstCase => "Worst Case"
  | CustomScenario => "Custom Scenario"
  end.

(** Line 52: the delta of the NPV metric. *)
Definition npv_status (npv : float) : string :=
  if 0 <=? npv then "Profitable" else "Not Profitable".

(** Lines 119 and 121: [pd.DataFrame(sensitivity_results).empty]. *)
Definition df_sensitivity_empty (results : list SensitivityRow) : bool :=
  match results with
  | [] => true
  | _ :: _ => false
  end.

(** What one run of the script shows besides the figures of [Page]. *)
Record Report : Set := {
  report_page : Page;
  report_status : string;
  report_npv_details : frame;
  report_sensitivity_chart : bool;
  report_comparison : frame;
  report_bars : list (string * string * float)
}.

Section Tables.

Variable pow : float -> Z -> float.

(** Lines 56-60. *)
Definition df_npv (i : Inputs) (discounted_cash_flows : list float) : py frame :=
  DataFrame
    (dict_set
       (dict_set
          (dict_set [] "Year" (Ints (range_from 1 (years i + 1))))
          "Cash Flow" (Values (cash_flows i)))
       "Discounted Cash Flow" (Values discounted_cash_flows)).

(** The Metric column of line 212. *)
Definition metrics : list string :=
  ["Revenue"%string; "EBIT"%string; "Net Income"%string; "NPV"%string].

(** Lines 211-215. *)
Definition scenario_data (i : Inputs) (npv : float) (a : Adjusted) (s : scenario)
  : py frame :=
  DataFrame
    (dict_set
       (dict_set
          (dict_set [] "Metric" (Labels metrics))
          "Base Case" (Values [revenue i; ebit i; net_income i; npv]))
       (scenario_name s)
       (Values [adj_revenue a; adj_ebit a; adj_net_income a; adj_npv a])).

(** The script with its tables, top to bottom. *)
Definition script (i : Inputs) (sensitivity_range sensitivity_steps : Z)
  (s : scenario) (custom : factor -> Z) : py Report :=
  dcf <- discounted_cash_flows pow i ;;
  let npv := sum dcf - initial_investment i in
  npv_details <- df_npv i dcf ;;
  sensitivity_results <- sensitivity_results pow i sensitivity_range sensitivity_steps ;;
  a <- scenario_financials pow i (changes s custom) ;;
  let label := profitability_label (adj_npv a) npv in
  delta <- profitability_delta (adj_npv a) npv ;;
  comparison <- scenario_data i npv a s ;;
  Ok {| report_page :=
          {| page_npv := npv; page_sensitivity := sensitivity_results;
             page_scenario := a; page_npv_delta := adj_npv a - npv;
             page_label := label; page_delta := delta |};
        report_status := npv_status npv;
        report_npv_details := npv_details;
        report_sensitivity_chart := negb (df_sensitivity_empty sensitivity_results);
        report_comparison := comparison;
        report_bars := melt "Metric" comparison |}.

End Tables.

(** The default values at a tax rate of 0 %. *)
Definition zero_tax_inputs : Inputs :=
  {| sales_units := 1000; price_per_unit := 50; variable_cost_per_unit := 20;
     fixed_cost := 5000; tax_rate := 0; initial_investment := 20000;
     discount_slider := 10; years := 5 |}.

(** * Binary64 facts

    The primitive operations are specified by [SpecFloat] through
    [FloatAxioms]; the facts below are read off that specification. *)

Lemma Prim2SF_one : Prim2SF 1 = S754_finite false 4503599627370496 (-52).
Proof. reflexivity. Qed.

Lemma Prim2SF_zero : Prim2SF 0 = S754_zero false.
Proof. reflexivity. Qed.

(** Shifting a mantissa with [k] trailing zero bits right by [k] is exact. *)
Lemma iter_shr_1_xO (k : nat) (m : positive) :
  Nat.iter k shr_1 {| shr_m := Zpos (Nat.iter k xO m); shr_r := false; shr_s := false |}
  = {| shr_m := Zpos m; shr_r := false; shr_s := false |}.
Proof.
  induction k as [|k IH]; [reflexivity|].
  rewrite Nat.iter_succ_r. cbn [Nat.iter shr_1 orb]. exact IH.
Qed.

Lemma iter_pos_nat {A : Type} (f : A -> A) (p : positive) (x : A) :
  iter_pos f p x = Nat.iter (Pos.to_nat p) f x.
Proof.
  revert x. induction p as [p IH|p IH|]; intro x; cbn [iter_pos].
  - rewrite Pos2Nat.inj_xI, !IH.
    replace (S (2 * Pos.to_nat p)) with (Pos.to_nat p + (Pos.to_nat p + 1))%nat by lia.
    rewrite !Nat.iter_add. reflexivity.
  - rewrite Pos2Nat.inj_xO, !IH.
    replace (2 * Pos.to_nat p)%nat with (Pos.to_nat p + Pos.to_nat p)%nat by lia.
    rewrite Nat.iter_add. reflexivity.
  - reflexivity.
Qed.

Lemma digits2_pos_iter_xO (k : nat) (m : positive) :
  Zpos (digits2_pos (Nat.iter k xO m)) = (Zpos (digits2_pos m) + Z.of_nat k)%Z.
Proof.
  induction k as [|k IH]; [cbn; lia|].
  rewrite Nat.iter_succ. cbn [digits2_pos]. rewrite Pos2Z.inj_succ, IH. lia.
Qed.

Lemma SFmul_one_finite (s : bool) (m : positive) (e : Z) :
  bounded prec emax m e = true ->
  SFmul prec emax (S754_finite s m e) (S754_finite false 4503599627370496 (-52))
  = S754_finite s m e.
Proof.
  intro Hb. unfold bounded, canonical_mantissa in Hb.
  apply andb_true_iff in Hb. destruct Hb as [Hc He].
  apply Z.eqb_eq in Hc.
  cbn [SFmul]. rewrite xorb_false_r.
  replace (m * 4503599627370496)%positive with (Nat.iter 52 xO m)
    by (rewrite Pos.mul_comm; reflexivity).
  unfold binary_round_aux, shr_fexp.
  cbn [Zdigits2 shr_record_of_loc]. rewrite digits2_pos_iter_xO.
  replace (Z.pos (digits2_pos m) + Z.of_nat 52 + (e + -52))%Z
    with (Z.pos (digits2_pos m) + e)%Z by lia.
  rewrite Hc.
  replace (e - (e + -52))%Z with 52%Z by lia.
  cbn [shr]. rewrite iter_pos_nat.
  change (Pos.to_nat 52) with 52%nat. rewrite iter_shr_1_xO.
  cbn [shr_m loc_of_shr_record round_nearest_even Zdigits2 shr_record_of_loc].
  replace (e + -52 + 52)%Z with e by lia.
  rewrite Hc, Z.sub_diag. cbn [shr shr_m]. rewrite He. reflexivity.
Qed.

(** [x * 1.0] is [x], for every binary64 [x]. *)
Lemma mul_one_r (x : float) : x * 1 = x.
Proof.
  apply Prim2SF_inj. rewrite mul_spec, Prim2SF_one.
  pose proof (Prim2SF_valid x) as Hv.
  destruct (Prim2SF x) as [s|s| |s m e]; cbn [SF64mul SFmul].
  - rewrite xorb_false_r. reflexivity.
  - rewrite xorb_false_r. reflexivity.
  - reflexivity.
  - apply SFmul_one_finite. exact Hv.
Qed.

(** [x - 0.0] is [x], for every binary64 [x]. *)
Lemma sub_zero_r (x : float) : x - 0 = x.
Proof.
  apply Prim2SF_inj. rewrite sub_spec, Prim2SF_zero.
  destruct (Prim2SF x) as [[|]|[|]| |s m e]; reflexivity.
Qed.

(** [abs x] is a zero exactly when [x] is. *)
Lemma abs_eqb_zero (x : float) : (abs x =? 0) = (x =? 0).
Proof.
  rewrite !eqb_spec, abs_spec, Prim2SF_zero.
  destruct (Prim2SF x) as [[|]|[|]| |[|] m e]; reflexivity.
Qed.

Lemma Prim2SF_infinity : Prim2SF infinity = S754_infinity false.
Proof. reflexivity. Qed.

(** [x - x] is [+0.0] for every finite [x]. *)
Lemma sub_diag_finite (x : float) : is_finite x = true -> x - x = 0.
Proof.
  unfold is_finite, is_nan, is_infinity.
  rewrite !eqb_spec, abs_spec, Prim2SF_infinity. intro Hf.
  apply Prim2SF_inj. rewrite sub_spec, Prim2SF_zero.
  destruct (Prim2SF x) as [[|]|[|]| |s m e]; try reflexivity; try discriminate Hf.
  cbn [SF64sub SFsub]. rewrite Z.sub_diag. reflexivity.
Qed.

(** No binary64 number is below itself. *)
Lemma ltb_irrefl (x : float) : (x <? x) = false.
Proof.
  rewrite ltb_spec. unfold SFltb.
  destruct (Prim2SF x) as [[|]|[|]| |[|] m e]; try reflexivity;
    cbn [SFcompare]; rewrite Z.compare_refl, Pos.compare_cont_refl; reflexivity.
Qed.

(** Two numbers that compare equal are not strictly ordered. *)
Lemma eqb_not_ltb (x y : float) : (x =? y) = true -> (x <? y) = false.
Proof.
  rewrite eqb_spec, ltb_spec. unfold SFeqb, SFltb.
  destruct (SFcompare (Prim2SF x) (Prim2SF y)) as [[| |]|]; congruence.
Qed.

(** A number at most zero is not above zero. *)
Lemma leb_zero_not_pos (x : float) : (x <=? 0) = true -> (0 <? x) = false.
Proof.
  rewrite leb_spec, ltb_spec, Prim2SF_zero.
  destruct (Prim2SF x) as [[|]|[|]| |[|] m e]; cbn; congruence.
Qed.

(** * Magnitudes

    What follows bounds results from below: a rounding never lowers the
    magnitude (the position of the leading bit) of what it rounds, so a
    quotient, a sum or a product of known magnitude is not a zero. *)

Section Magnitude.

#[local] Open Scope Z_scope.

Lemma digits2_pos_size (p : positive) : digits2_pos p = Pos.size p.
Proof. induction p as [p IH|p IH|]; cbn; congruence. Qed.

Lemma digits2_log2 (p : positive) : Zpos (digits2_pos p) = Z.log2 (Zpos p) + 1.
Proof.
  rewrite digits2_pos_size. destruct p as [p|p|]; cbn [Z.log2 Pos.size];
    rewrite ?Pos2Z.inj_succ; lia.
Qed.

Lemma shr_1_m (r : shr_record) : 0 <= shr_m r -> shr_m (shr_1 r) = Z.div2 (shr_m r).
Proof.
  destruct r as [m r s]. cbn [shr_m]. intro H.
  destruct m as [|[p|p|]|p]; try reflexivity. lia.
Qed.

Lemma iter_shr_1_m (k : nat) (r : shr_record) :
  0 <= shr_m r -> shr_m (Nat.iter k shr_1 r) = Z.shiftr (shr_m r) (Z.of_nat k).
Proof.
  intro H. induction k as [|k IH].
  - change (Nat.iter 0 shr_1 r) with r. change (Z.of_nat 0) with 0.
    rewrite Z.shiftr_0_r. reflexivity.
  - rewrite Nat.iter_succ, shr_1_m.
    + rewrite IH, Nat2Z.inj_succ, Z.div2_spec, Z.shiftr_shiftr by lia. reflexivity.
    + rewrite IH. apply Z.shiftr_nonneg. exact H.
Qed.

Lemma shr_spec (r : shr_record) (e n : Z) :
  0 <= shr_m r ->
  shr_m (fst (shr r e n)) = Z.shiftr (shr_m r) (Z.max 0 n)
  /\ snd (shr r e n) = e + Z.max 0 n.
Proof.
  intro H. destruct n as [|p|p]; cbn [shr fst snd].
  - rewrite Z.shiftr_0_r. lia.
  - rewrite iter_pos_nat, iter_shr_1_m, positive_nat_Z by exact H.
    rewrite Z.max_r by lia. split; reflexivity.
  - rewrite Z.max_l by lia. rewrite Z.shiftr_0_r. lia.
Qed.

Lemma shr_record_of_loc_m (m : Z) (l : location) : shr_m (shr_record_of_loc m l) = m.
Proof. destruct l as [|[| |]]; reflexivity. Qed.

(** One [shr_fexp] step on a positive mantissa above the underflow
    threshold: the mantissa stays positive, the magnitude is kept. *)
Lemma shr_fexp_mag (m e : Z) (l : location) :
  0 < m -> -1074 < Z.log2 m + 1 + e ->
  Zdigits2 m = Z.log2 m + 1 ->
  let m' := shr_m (fst (shr_fexp prec emax m e l)) in
  let e' := snd (shr_fexp prec emax m e l) in
  0 < m' /\ Z.log2 m' + 1 + e' = Z.log2 m + 1 + e /\ Z.log2 m' + 1 <= 53.
Proof.
  intros Hm Hmag Hd. unfold shr_fexp. rewrite Hd.
  set (k := fexp prec emax (Z.log2 m + 1 + e) - e).
  destruct (shr_spec (shr_record_of_loc m l) e k) as [H1 H2].
  { rewrite shr_record_of_loc_m. lia. }
  rewrite shr_record_of_loc_m in H1. cbv zeta. rewrite H1, H2.
  assert (Hk : Z.max 0 k <= Z.log2 m).
  { unfold k, fexp, SpecFloat.emin. change prec with 53. change emax with 1024.
    pose proof (Z.log2_nonneg m). lia. }
  assert (Hl : Z.log2 (Z.shiftr m (Z.max 0 k)) = Z.log2 m - Z.max 0 k).
  { rewrite Z.log2_shiftr by exact Hm. lia. }
  split; [|split; [lia|]].
  - rewrite Z.shiftr_div_pow2 by lia.
    apply Z.div_str_pos. split; [apply Z.pow_pos_nonneg; lia|].
    apply Z.log2_le_pow2; [exact Hm|]. exact Hk.
  - rewrite Hl. unfold k, fexp, SpecFloat.emin.
    change prec with 53. change emax with 1024. lia.
Qed.

Lemma Zdigits2_log2 (m : Z) : 0 < m -> Zdigits2 m = Z.log2 m + 1.
Proof. destruct m as [|p|p]; try lia. intros _. apply digits2_log2. Qed.

Lemma round_nearest_even_bounds (m : Z) (l : location) :
  m <= round_nearest_even m l <= m + 1.
Proof. destruct l as [|[| |]]; cbn; try lia. destruct (Z.even m); lia. Qed.

(** Rounding a positive mantissa above the underflow threshold gives an
    infinity or a finite number of the same sign, of no smaller magnitude,
    and of magnitude at most 2^1024. *)
Lemma binary_round_aux_mag (s : bool) (m e : Z) (l : location) :
  0 < m -> -1074 < Z.log2 m + 1 + e ->
  binary_round_aux prec emax s m e l = S754_infinity s
  \/ exists (m' : positive) (e' : Z),
       binary_round_aux prec emax s m e l = S754_finite s m' e'
       /\ Z.log2 m + 1 + e <= Z.log2 (Zpos m') + 1 + e' <= 1024.
Proof.
  intros Hm Hmag. unfold binary_round_aux.
  pose proof (shr_fexp_mag m e l Hm Hmag (Zdigits2_log2 m Hm)) as [H1 [H1' _]].
  destruct (shr_fexp prec emax m e l) as [r1 e1]. cbn [fst snd] in H1, H1'.
  set (m2 := round_nearest_even (shr_m r1) (loc_of_shr_record r1)).
  pose proof (round_nearest_even_bounds (shr_m r1) (loc_of_shr_record r1)) as H2.
  fold m2 in H2.
  assert (Hl2 : Z.log2 (shr_m r1) <= Z.log2 m2) by (apply Z.log2_le_mono; lia).
  assert (Hm2 : 0 < m2) by lia.
  pose proof (shr_fexp_mag m2 e1 loc_Exact Hm2 ltac:(lia) (Zdigits2_log2 m2 Hm2))
    as [H3 [H3' H3'']].
  destruct (shr_fexp prec emax m2 e1 loc_Exact) as [r3 e3].
  cbn [fst snd] in H3, H3', H3''.
  destruct (shr_m r3) as [|m3|m3]; try lia.
  destruct (e3 <=? emax - prec) eqn:E3.
  - right. exists m3, e3. split; [reflexivity|].
    apply Z.leb_le in E3. change (emax - prec) with 971 in E3. lia.
  - left. reflexivity.
Qed.

Lemma pos_iter_xO (d : positive) (m : positive) :
  Zpos (Pos.iter xO m d) = Zpos m * 2 ^ Zpos d.
Proof.
  rewrite Pos2Nat.inj_iter, <- (positive_nat_Z d).
  induction (Pos.to_nat d) as [|k IH].
  - cbn. lia.
  - cbn [nat_rect]. rewrite Pos2Z.inj_xO, IH, Nat2Z.inj_succ, Z.pow_succ_r by lia. lia.
Qed.

Lemma shl_align_mag (m : positive) (e e' : Z) :
  let '(mz, ez) := shl_align m e e' in
  Z.log2 (Zpos mz) + 1 + ez = Z.log2 (Zpos m) + 1 + e.
Proof.
  unfold shl_align. destruct (e' - e) as [|d|d] eqn:E; try reflexivity.
  rewrite pos_iter_xO. rewrite <- Z.shiftl_mul_pow2, Z.log2_shiftl by lia. lia.
Qed.

Lemma binary_round_mag (s : bool) (m : positive) (e : Z) :
  -1074 < Z.log2 (Zpos m) + 1 + e ->
  binary_round prec emax s m e = S754_infinity s
  \/ exists (m' : positive) (e' : Z),
       binary_round prec emax s m e = S754_finite s m' e'
       /\ Z.log2 (Zpos m) + 1 + e <= Z.log2 (Zpos m') + 1 + e' <= 1024.
Proof.
  intro Hmag. unfold binary_round.
  pose proof (shl_align_mag m e (fexp prec emax (Zpos (digits2_pos m) + e))) as H.
  destruct (shl_align m e (fexp prec emax (Zpos (digits2_pos m) + e))) as [mz ez].
  rewrite <- H in *. apply binary_round_aux_mag; lia.
Qed.

Lemma bounded_facts (m : positive) (e : Z) :
  bounded prec emax m e = true ->
  -1074 <= e <= 971
  /\ Z.log2 (Zpos m) + 1 <= 53
  /\ (-1074 < e -> Z.log2 (Zpos m) + 1 = 53).
Proof.
  unfold bounded, canonical_mantissa, fexp, SpecFloat.emin.
  change prec with 53. change emax with 1024.
  rewrite andb_true_iff, Z.eqb_eq, Z.leb_le, digits2_log2. lia.
Qed.

Lemma binary_round_aux_canonical (s : bool) (m : positive) (e : Z) :
  Z.log2 (Zpos m) + 1 = 53 -> -1074 <= e <= 971 ->
  binary_round_aux prec emax s (Zpos m) e loc_Exact = S754_finite s m e.
Proof.
  intros Hd He. unfold binary_round_aux, shr_fexp.
  cbn [Zdigits2 shr_record_of_loc]. rewrite digits2_log2, Hd.
  replace (fexp prec emax (53 + e) - e) with 0
    by (unfold fexp, SpecFloat.emin; change prec with 53; change emax with 1024; lia).
  cbn [shr shr_m loc_of_shr_record round_nearest_even Zdigits2 shr_record_of_loc].
  rewrite digits2_log2, Hd.
  replace (fexp prec emax (53 + e) - e) with 0
    by (unfold fexp, SpecFloat.emin; change prec with 53; change emax with 1024; lia).
  cbn [shr shr_m].
  replace (e <=? emax - prec) with true
    by (symmetry; apply Z.leb_le; change prec with 53; change emax with 1024; lia).
  reflexivity.
Qed.

(** The conversion of an int below 2^53 is exact: a finite number of the
    int's sign, whose full mantissa is the int shifted left. *)
Lemma Prim2SF_of_int (z : Z) :
  1 <= Z.abs z < 2 ^ 53 ->
  exists m : positive,
    Prim2SF (of_int z) = S754_finite (z <? 0) m (Z.log2 (Z.abs z) + 1 - 53)
    /\ Z.log2 (Zpos m) + 1 = 53
    /\ Zpos m = Z.abs z * 2 ^ (53 - (Z.log2 (Z.abs z) + 1)).
Proof.
  intro Hz. unfold of_int.
  assert (H : forall (s : bool) (p : positive), Zpos p < 2 ^ 53 ->
            exists m : positive,
              binary_round prec emax s p 0 = S754_finite s m (Z.log2 (Zpos p) + 1 - 53)
              /\ Z.log2 (Zpos m) + 1 = 53
              /\ Zpos m = Zpos p * 2 ^ (53 - (Z.log2 (Zpos p) + 1))).
  { intros s p Hp. unfold binary_round.
    assert (Hl : Z.log2 (Zpos p) < 53) by (apply Z.log2_lt_pow2; lia).
    pose proof (Z.log2_nonneg (Zpos p)) as Hn.
    pose proof (shl_align_mag p 0 (fexp prec emax (Zpos (digits2_pos p) + 0))) as Hm.
    unfold shl_align in *. rewrite digits2_log2 in *.
    replace (fexp prec emax (Z.log2 (Zpos p) + 1 + 0) - 0)
      with (Z.log2 (Zpos p) + 1 - 53) in *
      by (unfold fexp, SpecFloat.emin; change prec with 53; change emax with 1024; lia).
    destruct (Z.log2 (Zpos p) + 1 - 53) as [|d|d] eqn:E; try lia.
    - exists p. split; [apply binary_round_aux_canonical; lia|]. split; [lia|].
      replace (53 - (Z.log2 (Zpos p) + 1)) with 0 by lia. lia.
    - replace (fexp prec emax (Z.log2 (Zpos p) + 1 + 0)) with (Zneg d) in *
        by (unfold fexp, SpecFloat.emin; change prec with 53; change emax with 1024; lia).
      exists (Pos.iter xO p d). split; [apply binary_round_aux_canonical; lia|].
      split; [lia|]. rewrite pos_iter_xO. f_equal. f_equal. lia. }
  assert (Hvalid : forall (s : bool) (m : positive) (e : Z),
            Z.log2 (Zpos m) + 1 = 53 -> -52 <= e <= 0 ->
            valid_binary (S754_finite s m e) = true).
  { intros s m e Hd He. cbn [valid_binary].
    unfold bounded, canonical_mantissa, fexp, SpecFloat.emin.
    change prec with 53. change emax with 1024.
    rewrite andb_true_iff, Z.eqb_eq, Z.leb_le, digits2_log2. lia. }
  assert (Hl : 0 <= Z.log2 (Z.abs z) < 53).
  { split; [apply Z.log2_nonneg|]. apply Z.log2_lt_pow2; lia. }
  destruct z as [|p|p]; cbn [Z.abs] in Hz, Hl |- *; try lia.
  - destruct (H false p) as [m [Hm [Hd Hv]]]; [lia|]. exists m.
    split; [|split; assumption].
    cbn [binary_normalize Z.ltb Z.compare]. rewrite Hm.
    apply Prim2SF_SF2Prim. apply Hvalid; [exact Hd|lia].
  - destruct (H true p) as [m [Hm [Hd Hv]]]; [lia|]. exists m.
    split; [|split; assumption].
    cbn [binary_normalize Z.ltb Z.compare]. rewrite Hm.
    apply Prim2SF_SF2Prim. apply Hvalid; [exact Hd|lia].
Qed.

Lemma Prim2SF_hundred : Prim2SF 100%float = S754_finite false 7036874417766400 (-46).
Proof. reflexivity. Qed.

(** Dividing a finite number of magnitude at least 2^8 by 100 gives an
    infinity or a finite number of magnitude at least 2, of the same sign. *)
Lemma SFdiv_hundred_mag (s : bool) (m : positive) (e : Z) :
  bounded prec emax m e = true ->
  9 <= Z.log2 (Zpos m) + 1 + e ->
  let q := SFdiv prec emax (S754_finite s m e) (S754_finite false 7036874417766400 (-46)) in
  q = S754_infinity s
  \/ exists (m' : positive) (e' : Z),
       q = S754_finite s m' e' /\ 2 <= Z.log2 (Zpos m') + 1 + e'.
Proof.
  intros Hb Hmag. apply bounded_facts in Hb. destruct Hb as [He [Hd _]].
  pose proof (Z.log2_nonneg (Zpos m)) as Hn.
  cbv zeta. cbn [SFdiv]. rewrite xorb_false_r.
  unfold SFdiv_core_binary. cbn [Zdigits2]. rewrite digits2_log2.
  change (Zpos (digits2_pos 7036874417766400)) with 53.
  set (L := Z.log2 (Zpos m)) in *.
  replace (fexp prec emax (L + 1 + e - (53 + -46))) with (L + e - 59)
    by (unfold fexp, SpecFloat.emin; change prec with 53; change emax with 1024; lia).
  set (e' := Z.min (L + e - 59) (e - -46)).
  assert (Hs : 105 - L <= e - -46 - e') by (unfold e'; lia).
  destruct (e - -46 - e') as [|sp|sp] eqn:Es; try lia.
  rewrite Z.shiftl_mul_pow2 by lia.
  destruct (Z.div_eucl (Zpos m * 2 ^ Zpos sp) (Zpos 7036874417766400)) as [q r] eqn:Eq.
  assert (Hq : q = Zpos m * 2 ^ Zpos sp / Zpos 7036874417766400)
    by (unfold Z.div; rewrite Eq; reflexivity).
  assert (Hlow : 2 ^ (L + Zpos sp - 53) <= q).
  { rewrite Hq. apply Z.div_le_lower_bound; [lia|].
    apply Z.le_trans with (2 ^ 53 * 2 ^ (L + Zpos sp - 53)).
    - apply Z.mul_le_mono_nonneg_r; [apply Z.pow_nonneg; lia|]. cbn. lia.
    - rewrite <- Z.pow_add_r by lia.
      replace (53 + (L + Zpos sp - 53)) with (L + Zpos sp) by lia.
      rewrite Z.pow_add_r by lia.
      apply Z.mul_le_mono_nonneg_r; [apply Z.pow_nonneg; lia|].
      apply Z.log2_spec. lia. }
  assert (Hqpos : 0 < q).
  { apply Z.lt_le_trans with (2 ^ (L + Zpos sp - 53)); [apply Z.pow_pos_nonneg; lia|exact Hlow]. }
  assert (Hlq : L + Zpos sp - 53 <= Z.log2 q) by (apply Z.log2_le_pow2; assumption).
  destruct (binary_round_aux_mag s q e' (new_location (Zpos 7036874417766400) r) Hqpos)
    as [Hinf|[m' [e'' [Hfin Hm']]]]; [lia|left; exact Hinf|].
  right. exists m', e''. split; [exact Hfin|lia].
Qed.

(** Adding 1.0 to a finite negative number of magnitude at least 2 gives a
    negative infinity or a finite negative number of magnitude at least 1. *)
Lemma SFadd_one_mag (m : positive) (e : Z) :
  bounded prec emax m e = true ->
  2 <= Z.log2 (Zpos m) + 1 + e ->
  let r := SFadd prec emax (S754_finite false 4503599627370496 (-52)) (S754_finite true m e) in
  r = S754_infinity true
  \/ exists (m' : positive) (e' : Z),
       r = S754_finite true m' e' /\ 1 <= Z.log2 (Zpos m') + 1 + e'.
Proof.
  intros Hb Hmag. apply bounded_facts in Hb. destruct Hb as [He [Hd _]].
  pose proof (Z.log2_nonneg (Zpos m)) as Hn.
  cbv zeta. cbn [SFadd]. rewrite Z.min_l by lia.
  change (shl_align 4503599627370496 (-52) (-52)) with (4503599627370496%positive, -52).
  unfold shl_align. destruct (-52 - e) as [|d|d] eqn:Ed; try lia.
  cbv beta iota delta [fst cond_Zopp]. rewrite pos_iter_xO.
  assert (Hbig : 2 ^ 53 <= Zpos m * 2 ^ Zpos d).
  { apply Z.le_trans with (2 ^ Z.log2 (Zpos m) * 2 ^ Zpos d).
    - rewrite <- Z.pow_add_r by lia. apply Z.pow_le_mono_r; lia.
    - apply Z.mul_le_mono_nonneg_r; [apply Z.pow_nonneg; lia|].
      apply Z.log2_spec. lia. }
  change (2 ^ 53) with 9007199254740992 in Hbig.
  destruct (4503599627370496 + - (Zpos m * 2 ^ Zpos d)) as [|p|p] eqn:Ep; try lia.
  cbn [binary_normalize].
  assert (Hp : 52 <= Z.log2 (Zpos p)).
  { apply Z.log2_le_pow2; [lia|]. change (2 ^ 52) with 4503599627370496. lia. }
  destruct (binary_round_mag true p (-52)) as [Hinf|[m' [e' [Hfin Hm']]]];
    [lia|left; exact Hinf|].
  right. exists m', e'. split; [exact Hfin|lia].
Qed.

(** The product of two finite numbers whose magnitudes add up above the
    underflow threshold is an infinity or finite, never a zero. *)
Lemma SFmul_mag (sx sy : bool) (mx my : positive) (ex ey : Z) :
  -1074 < (Z.log2 (Zpos mx) + 1 + ex) + (Z.log2 (Zpos my) + 1 + ey) - 1 ->
  let r := SFmul prec emax (S754_finite sx mx ex) (S754_finite sy my ey) in
  r = S754_infinity (xorb sx sy)
  \/ exists (m' : positive) (e' : Z), r = S754_finite (xorb sx sy) m' e'.
Proof.
  intro Hmag. cbv zeta. cbn [SFmul].
  assert (Hl : Z.log2 (Zpos mx) + Z.log2 (Zpos my) <= Z.log2 (Zpos (mx * my))).
  { rewrite Pos2Z.inj_mul. apply Z.log2_mul_below; lia. }
  destruct (binary_round_aux_mag (xorb sx sy) (Zpos (mx * my)) (ex + ey) loc_Exact)
    as [Hinf|[m' [e' [Hfin _]]]]; [lia|lia|left; exact Hinf|].
  right. exists m', e'. exact Hfin.
Qed.

End Magnitude.

Lemma Prim2SF_neg_ulp : Prim2SF (-0x1p-52) = S754_finite true 4503599627370496 (-104).
Proof. reflexivity. Qed.

Lemma Prim2SF_min_normal : Prim2SF 0x1p-1022 = S754_finite false 4503599627370496 (-1074).
Proof. reflexivity. Qed.

(** The deltas -101 .. -255, one by one. *)
Lemma factor_small_deltas :
  forallb (fun d : Z => 1 + int_truediv d 100 <=? -0x1p-52)
          (map (fun k : nat => (-101 - Z.of_nat k)%Z) (seq 0 155)) = true.
Proof. vm_compute. reflexivity. Qed.

(** A delta below -100 makes the factor [1 + delta/100] negative: at most
    [-2^-52]. *)
Lemma factor_negative (d : Z) :
  (- (2 ^ 53 - 1) <= d < -100)%Z -> (1 + int_truediv d 100 <=? -0x1p-52) = true.
Proof.
  intro Hd. destruct (Z_le_gt_dec (-255) d) as [Hsmall|Hbig].
  - apply (proj1 (forallb_forall _ _) factor_small_deltas).
    apply in_map_iff. exists (Z.to_nat (-101 - d)). split; [lia|].
    apply in_seq. lia.
  - destruct (Prim2SF_of_int d) as [m [Hm [Hfull _]]]; [lia|].
    replace (d <? 0)%Z with true in Hm by (symmetry; apply Z.ltb_lt; lia).
    assert (Hl : (8 <= Z.log2 (Z.abs d))%Z).
    { apply Z.log2_le_pow2; [lia|]. change (2 ^ 8)%Z with 256%Z. lia. }
    pose proof (Prim2SF_valid (of_int d)) as Hv. rewrite Hm in Hv. cbn [valid_binary] in Hv.
    pose proof (Prim2SF_valid (int_truediv d 100)) as Hvq.
    pose proof (Prim2SF_valid (1 + int_truediv d 100)) as Hvs.
    rewrite leb_spec, Prim2SF_neg_ulp. rewrite add_spec in Hvs |- *.
    unfold int_truediv in *. rewrite div_spec, Prim2SF_one in *.
    change (of_int 100) with 100 in *. rewrite Prim2SF_hundred, Hm in *.
    destruct (SFdiv_hundred_mag true m _ Hv ltac:(lia)) as [Hq|[mq [eq [Hq Hmq]]]];
      unfold SF64div in *; rewrite Hq in *; [reflexivity|].
    cbn [valid_binary] in Hvq.
    destruct (SFadd_one_mag mq eq Hvq Hmq) as [Hs|[ms [es [Hs Hms]]]];
      unfold SF64add in *; rewrite Hs in *; [reflexivity|].
    cbn [valid_binary] in Hvs. apply bounded_facts in Hvs.
    unfold SFleb. cbn [SFcompare].
    replace (es ?= -104)%Z with Gt by (symmetry; apply Z.compare_gt_iff; lia).
    reflexivity.
Qed.

(** [<=] on two finite numbers of one sign, read on exponents and mantissas. *)
Lemma SFleb_pos_pos (m1 m2 : positive) (e1 e2 : Z) :
  SFleb (S754_finite false m1 e1) (S754_finite false m2 e2) = true ->
  (e1 < e2)%Z \/ (e1 = e2 /\ (Zpos m1 <= Zpos m2)%Z).
Proof.
  unfold SFleb. cbn [SFcompare]. rewrite Pos.compare_cont_spec. unfold Pos.switch_Eq.
  destruct (Z.compare_spec e1 e2) as [E|E|E]; try discriminate; [|auto].
  destruct (Pos.compare_spec m1 m2) as [P|P|P]; try discriminate; intros _; right; lia.
Qed.

Lemma SFleb_neg_neg (m1 m2 : positive) (e1 e2 : Z) :
  SFleb (S754_finite true m1 e1) (S754_finite true m2 e2) = true ->
  (e2 < e1)%Z \/ (e1 = e2 /\ (Zpos m2 <= Zpos m1)%Z).
Proof.
  unfold SFleb. cbn [SFcompare]. rewrite Pos.compare_cont_spec. unfold Pos.switch_Eq.
  destruct (Z.compare_spec e1 e2) as [E|E|E]; try discriminate; [|auto].
  destruct (Pos.compare_spec m1 m2) as [P|P|P]; try discriminate; intros _; right; lia.
Qed.

Lemma SFleb_min_normal_mag (mb : positive) (eb : Z) :
  bounded prec emax mb eb = true ->
  SFleb (S754_finite false 4503599627370496 (-1074)) (S754_finite false mb eb) = true ->
  (-1021 <= Z.log2 (Zpos mb) + 1 + eb)%Z.
Proof.
  intros Hvb Hb. apply bounded_facts in Hvb. apply SFleb_pos_pos in Hb.
  destruct Hb as [Hb|[Hb Hm]]; [lia|].
  assert (52 <= Z.log2 (Zpos mb))%Z; [|lia].
  apply Z.log2_le_pow2; [lia|]. change (2 ^ 52)%Z with 4503599627370496%Z. exact Hm.
Qed.

Lemma SFleb_neg_ulp_mag (mf : positive) (ef : Z) :
  bounded prec emax mf ef = true ->
  SFleb (S754_finite true mf ef) (S754_finite true 4503599627370496 (-104)) = true ->
  (-51 <= Z.log2 (Zpos mf) + 1 + ef)%Z.
Proof.
  intros Hvf Hf. apply bounded_facts in Hvf. apply SFleb_neg_neg in Hf.
  destruct Hf as [Hf|[Hf Hm]]; [lia|].
  assert (52 <= Z.log2 (Zpos mf))%Z; [|lia].
  apply Z.log2_le_pow2; [lia|]. change (2 ^ 52)%Z with 4503599627370496%Z. exact Hm.
Qed.

Lemma mul_negative (b f : float) :
  (0x1p-1022 <=? b) = true -> (f <=? -0x1p-52) = true -> (b * f <? 0) = true.
Proof.
  rewrite !leb_spec, ltb_spec, mul_spec, Prim2SF_zero, Prim2SF_min_normal, Prim2SF_neg_ulp.
  pose proof (Prim2SF_valid b) as Hvb. pose proof (Prim2SF_valid f) as Hvf.
  destruct (Prim2SF b) as [sb|sb| |sb mb eb]; intro Hb;
    try discriminate Hb;
    destruct (Prim2SF f) as [sf|sf| |sf mf ef]; intro Hf;
    try discriminate Hf.
  - destruct sb; [discriminate Hb|]. destruct sf; [reflexivity|discriminate Hf].
  - destruct sb; [discriminate Hb|]. destruct sf; [reflexivity|discriminate Hf].
  - destruct sb; [discriminate Hb|]. destruct sf; [reflexivity|discriminate Hf].
  - destruct sb; [discriminate Hb|]. destruct sf; [|discriminate Hf].
    cbn [valid_binary] in Hvb, Hvf.
    pose proof (SFleb_min_normal_mag mb eb Hvb Hb) as Hmb.
    pose proof (SFleb_neg_ulp_mag mf ef Hvf Hf) as Hmf.
    assert (Hmag : (-1074 < Z.log2 (Zpos mb) + 1 + eb + (Z.log2 (Zpos mf) + 1 + ef) - 1)%Z)
      by (clear Hb Hf Hvb Hvf; lia).
    pose proof (SFmul_mag false true mb mf eb ef Hmag) as H. cbv zeta in H.
    unfold SF64mul. destruct H as [H|[m' [e' H]]]; rewrite H; reflexivity.
Qed.

Lemma of_int_normal (z : Z) : (1 <= z < 2 ^ 53)%Z -> (0x1p-1022 <=? of_int z) = true.
Proof.
  intro Hz. destruct (Prim2SF_of_int z) as [m [Hm _]]; [lia|].
  rewrite leb_spec, Prim2SF_min_normal, Hm.
  replace (z <? 0)%Z with false by (symmetry; apply Z.ltb_ge; lia).
  pose proof (Z.log2_nonneg (Z.abs z)).
  unfold SFleb. cbn [SFcompare].
  replace (-1074 ?= Z.log2 (Z.abs z) + 1 - 53)%Z with Lt
    by (symmetry; apply Z.compare_lt_iff; lia).
  reflexivity.
Qed.

(** ** Overflow *)

Lemma binary_round_overflow (s : bool) (m : positive) (e : Z) :
  (1024 < Z.log2 (Zpos m) + 1 + e)%Z ->
  binary_round prec emax s m e = S754_infinity s.
Proof.
  intro H. destruct (binary_round_mag s m e) as [Hinf|[m' [e' [_ Hm]]]]; [lia|exact Hinf|lia].
Qed.

(** A power whose exact value is 2^1024 or more raises OverflowError. *)
Lemma float_pow_overflow (x : float) (m p : positive) (e : Z) :
  Prim2SF x = S754_finite false m e ->
  is_finite x = true ->
  (2 ^ (1024 - e * Zpos p) <= Zpos m ^ Zpos p)%Z ->
  float_pow pow_cr x (Zpos p) = Raise OverflowError.
Proof.
  intros Hx Hf Hp. unfold float_pow, pow_cr. rewrite Hx. cbv beta iota.
  rewrite binary_round_overflow.
  - cbn [andb SF2Prim]. rewrite Hf. reflexivity.
  - rewrite Pos2Z.inj_pow.
    assert (H0 : (0 < Zpos m ^ Zpos p)%Z) by (apply Z.pow_pos_nonneg; lia).
    assert (H : (1024 - e * Zpos p <= Z.log2 (Zpos m ^ Zpos p))%Z)
      by (apply Z.log2_le_pow2; assumption).
    lia.
Qed.

Lemma Prim2SF_six_fifths :
  Prim2SF (1 + discount_rate long_horizon_inputs) = S754_finite false 5404319552844595 (-52).
Proof. vm_compute. reflexivity. Qed.

(** 1.2 ** 42 is above 2^11, so 1.2 ** 4200 is above 2^1100. *)
Lemma six_fifths_power :
  (2 ^ (1024 - -52 * 4200) <= 5404319552844595 ^ 4200)%Z.
Proof.
  apply Z.le_trans with ((2 ^ 2195) ^ 100)%Z.
  - rewrite <- Z.pow_mul_r by lia. apply Z.pow_le_mono_r; lia.
  - change 4200%Z with (42 * 100)%Z. rewrite (Z.pow_mul_r _ 42 100) by lia.
    apply Z.pow_le_mono_l. split; [apply Z.pow_nonneg; lia|].
    apply Z.leb_le. vm_compute. reflexivity.
Qed.

Lemma long_horizon_overflow :
  float_pow pow_cr (1 + discount_rate long_horizon_inputs) 4200 = Raise OverflowError.
Proof.
  apply (float_pow_overflow _ 5404319552844595 4200 (-52)).
  - exact Prim2SF_six_fifths.
  - vm_compute. reflexivity.
  - exact six_fifths_power.
Qed.

(** * The error monad and the loops *)

Lemma bind_Ok {A B : Type} (c : py A) (k : A -> py B) (b : B) :
  bind c k = Ok b <-> exists a, c = Ok a /\ k a = Ok b.
Proof.
  destruct c as [a|e]; cbn; split.
  - intro H. exists a. auto.
  - intros [a' [Ha Hk]]. injection Ha as ->. exact Hk.
  - discriminate.
  - intros [a' [Ha _]]. discriminate Ha.
Qed.

Lemma length_range (n : Z) : List.length (range n) = Z.to_nat n.
Proof. unfold range. rewrite length_map, length_seq. reflexivity. Qed.

(** [[x for _ in range(n)]] and [[x] * n] are the same list. *)
Lemma map_const_range {A : Type} (x : A) (n : Z) :
  map (fun _ => x) (range n) = repeat x (Z.to_nat n).
Proof.
  unfold range. rewrite map_map.
  generalize 0%nat. induction (Z.to_nat n) as [|k IH]; intro s; [reflexivity|].
  cbn. f_equal. apply IH.
Qed.

Lemma float_truediv_Ok (x y q : float) :
  float_truediv x y = Ok q <-> (y =? 0) = false /\ q = x / y.
Proof.
  unfold float_truediv. destruct (y =? 0); split.
  - discriminate.
  - intros [H _]. discriminate H.
  - intro H. injection H as <-. auto.
  - intros [_ ->]. reflexivity.
Qed.

(** The form's default values (lines 17-31). *)
Lemma example_inputs_valid : valid_inputs example_inputs.
Proof. constructor; cbn; try lia; split; reflexivity. Qed.

Section Discounting.

Variable pow : float -> Z -> float.
Variable rate : float.

(** The discounted flows, entry by entry: the loop returns exactly when
    every power is finite and non-zero, and entry [k] is then the flow
    over [(1 + rate) ** (i + k + 1)]. *)
Lemma discount_float_Ok (cfs : list float) : forall (i : Z) (ds : list float),
  discount pow float_truediv rate i cfs = Ok ds <->
  List.length ds = List.length cfs /\
  forall (k : nat) (cf : float), nth_error cfs k = Some cf ->
    exists p, float_pow pow (1 + rate) (i + Z.of_nat k + 1) = Ok p
              /\ (p =? 0) = false
              /\ nth_error ds k = Some (cf / p).
Proof.
  induction cfs as [|cf rest IH]; intros i ds; cbn [discount].
  - split.
    + intro H. injection H as <-. split; [reflexivity|].
      intros [|k] c Hc; discriminate Hc.
    + intros [Hl _]. destruct ds; [reflexivity|discriminate Hl].
  - rewrite bind_Ok. split.
    + intros [p [Hp H]]. apply bind_Ok in H. destruct H as [d [Hd H]].
      apply bind_Ok in H. destruct H as [ds' [Hds H]]. injection H as <-.
      apply float_truediv_Ok in Hd. destruct Hd as [Hz ->].
      apply IH in Hds. destruct Hds as [Hl Hn].
      split; [cbn; congruence|].
      intros [|k] c Hc.
      * injection Hc as <-. exists p. rewrite Z.add_0_r. auto.
      * destruct (Hn k c Hc) as [q [Hq [Hqz Hqn]]]. exists q.
        replace (i + Z.of_nat (S k) + 1)%Z with (i + 1 + Z.of_nat k + 1)%Z by lia.
        auto.
    + intros [Hl Hn]. destruct ds as [|d ds']; [discriminate Hl|].
      destruct (Hn 0%nat cf eq_refl) as [p [Hp [Hz Hd]]].
      rewrite Z.add_0_r in Hp. injection Hd as ->.
      exists p. split; [exact Hp|].
      apply bind_Ok. exists (cf / p). split; [apply float_truediv_Ok; auto|].
      apply bind_Ok. exists ds'. split; [|reflexivity].
      apply IH. split; [cbn in Hl; congruence|].
      intros k c Hc. destruct (Hn (S k) c Hc) as [q [Hq [Hqz Hqn]]]. exists q.
      replace (i + 1 + Z.of_nat k + 1)%Z with (i + Z.of_nat (S k) + 1)%Z by lia.
      auto.
Qed.

(** Once the loop has run on one list of flows it runs on every list of
    that length, with either division: the powers are the same. *)
Lemma discount_total (cfs : list float) : forall (i : Z) (ds : list float) (cfs' : list float),
  discount pow float_truediv rate i cfs = Ok ds ->
  List.length cfs' = List.length cfs ->
  (exists ds', discount pow float_truediv rate i cfs' = Ok ds')
  /\ (exists ds', discount pow np_truediv rate i cfs' = Ok ds').
Proof.
  induction cfs as [|cf rest IH]; intros i ds cfs' H Hl.
  - destruct cfs'; [|discriminate Hl]. cbn. eauto.
  - destruct cfs' as [|cf' rest']; [discriminate Hl|].
    cbn [discount] in *. apply bind_Ok in H. destruct H as [p [Hp H]].
    apply bind_Ok in H. destruct H as [d [Hd H]].
    apply bind_Ok in H. destruct H as [ds' [Hds _]].
    apply float_truediv_Ok in Hd. destruct Hd as [Hz _].
    destruct (IH _ _ rest' Hds) as [[l1 H1] [l2 H2]]; [cbn in Hl; congruence|].
    rewrite Hp. cbn [bind np_truediv].
    assert (Hq : float_truediv cf' p = Ok (cf' / p)) by (apply float_truediv_Ok; auto).
    rewrite Hq, H1, H2. cbn [bind]. eauto.
Qed.

(** Where the Python division returns, the NumPy division returns the same. *)
Lemma discount_np_float (cfs : list float) : forall (i : Z) (ds : list float),
  discount pow float_truediv rate i cfs = Ok ds ->
  discount pow np_truediv rate i cfs = Ok ds.
Proof.
  induction cfs as [|cf rest IH]; intros i ds H; [exact H|].
  cbn [discount] in *. apply bind_Ok in H. destruct H as [p [Hp H]].
  apply bind_Ok in H. destruct H as [d [Hd H]].
  apply bind_Ok in H. destruct H as [ds' [Hds H]]. injection H as <-.
  apply float_truediv_Ok in Hd. destruct Hd as [_ ->].
  rewrite Hp. cbn [bind np_truediv]. rewrite (IH _ _ Hds). reflexivity.
Qed.

End Discounting.

(** * The base calculations *)

(** C1. For every valid input the base calculations give
    revenue = sales_units * price_per_unit,
    ebit = revenue - sales_units * variable_cost_per_unit - fixed_cost,
    tax_paid = ebit * (tax_rate / 100) when ebit > 0 and 0 when ebit <= 0,
    and net_income = ebit - tax_paid. *)
Theorem base_calculations_formulas (i : Inputs) :
  valid_inputs i ->
  revenue i = of_int (sales_units i) * price_per_unit i
  /\ ebit i = revenue i - of_int (sales_units i) * variable_cost_per_unit i - fixed_cost i
  /\ ((0 <? ebit i) = true -> tax_paid i = ebit i * int_truediv (tax_rate i) 100)
  /\ ((ebit i <=? 0) = true -> tax_paid i = 0)
  /\ net_income i = ebit i - tax_paid i.
Proof.
  intros _. repeat split.
  - intro Hpos. unfold tax_paid. rewrite Hpos. reflexivity.
  - intro Hle. unfold tax_paid. rewrite (leb_zero_not_pos _ Hle). reflexivity.
Qed.

Lemma base_calculations_formulas_example :
  revenue example_inputs = 50000
  /\ ebit example_inputs = 25000
  /\ tax_paid example_inputs = 5000
  /\ net_income example_inputs = 20000.
Proof. repeat split. Qed.

Lemma base_calculations_formulas_witness :
  valid_inputs example_inputs
  /\ (revenue example_inputs
      = of_int (sales_units example_inputs) * price_per_unit example_inputs
      /\ ebit example_inputs
         = revenue example_inputs
           - of_int (sales_units example_inputs) * variable_cost_per_unit example_inputs
           - fixed_cost example_inputs
      /\ ((0 <? ebit example_inputs) = true ->
          tax_paid example_inputs
          = ebit example_inputs * int_truediv (tax_rate example_inputs) 100)
      /\ ((ebit example_inputs <=? 0) = true -> tax_paid example_inputs = 0)
      /\ net_income example_inputs = ebit example_inputs - tax_paid example_inputs).
Proof.
  split.
  - exact example_inputs_valid.
  - exact (base_calculations_formulas example_inputs example_inputs_valid).
Defined.

(** * Cash flows and NPV *)

Section NPV.

Variable pow : float -> Z -> float.

Lemma cash_flows_repeat (i : Inputs) :
  cash_flows i = repeat (net_income i) (Z.to_nat (years i)).
Proof. apply map_const_range. Qed.

Lemma nth_error_cash_flows (i : Inputs) (k : nat) (c : float) :
  nth_error (cash_flows i) k = Some c <->
  (k < Z.to_nat (years i))%nat /\ c = net_income i.
Proof.
  rewrite cash_flows_repeat. split.
  - intro H. split.
    + rewrite <- (repeat_length (net_income i) (Z.to_nat (years i))).
      apply nth_error_Some. congruence.
    + apply nth_error_In in H. apply repeat_spec in H. exact H.
  - intros [Hk ->]. apply nth_error_repeat. exact Hk.
Qed.

(** The discounting of the base cash flows returns exactly when every
    power is finite and non-zero. *)
Lemma discounted_cash_flows_Ok (i : Inputs) (dcf : list float) :
  discounted_cash_flows pow i = Ok dcf <->
  List.length dcf = Z.to_nat (years i) /\
  forall k : nat, (k < Z.to_nat (years i))%nat ->
    exists p, float_pow pow (1 + discount_rate i) (Z.of_nat k + 1) = Ok p
              /\ (p =? 0) = false
              /\ nth_error (cash_flows i) k = Some (net_income i)
              /\ nth_error dcf k = Some (net_income i / p).
Proof.
  unfold discounted_cash_flows. rewrite discount_float_Ok.
  rewrite cash_flows_repeat at 1. rewrite repeat_length.
  split; intros [Hl H]; (split; [exact Hl|]).
  - intros k Hk.
    destruct (H k (net_income i)) as [p [Hp [Hz Hd]]]; [apply nth_error_cash_flows; auto|].
    exists p. repeat split; auto. apply nth_error_cash_flows. auto.
  - intros k c Hc. apply nth_error_cash_flows in Hc. destruct Hc as [Hk ->].
    destruct (H k Hk) as [p [Hp [Hz [_ Hd]]]]. exists p. auto.
Qed.

Lemma npv_Ok (i : Inputs) (v : float) :
  npv pow i = Ok v <->
  exists dcf, discounted_cash_flows pow i = Ok dcf
              /\ v = fold_left add dcf 0 - initial_investment i.
Proof.
  unfold npv. rewrite bind_Ok. split.
  - intros [dcf [Hd H]]. injection H as <-. exists dcf. auto.
  - intros [dcf [Hd ->]]. exists dcf. auto.
Qed.

(** C2, as amended. For every valid input the cash flows are exactly
    [years] entries, all equal to net_income.  The discounting returns
    exactly when every (1 + discount_rate) ** (k + 1), k < years, is finite
    and non-zero (an infinite power raises OverflowError); entry k is then
    cash_flows[k] / (1 + discount_rate) ** (k + 1), and npv is the sum of
    the discounted flows, from left to right, minus initial_investment,
    which is subtracted once. *)
Theorem npv_formula (i : Inputs) :
  valid_inputs i ->
  (List.length (cash_flows i) = Z.to_nat (years i)
   /\ cash_flows i = repeat (net_income i) (Z.to_nat (years i)))
  /\ (forall dcf : list float,
        discounted_cash_flows pow i = Ok dcf <->
        List.length dcf = Z.to_nat (years i) /\
        forall k : nat, (k < Z.to_nat (years i))%nat ->
          exists p, float_pow pow (1 + discount_rate i) (Z.of_nat k + 1) = Ok p
                    /\ (p =? 0) = false
                    /\ nth_error (cash_flows i) k = Some (net_income i)
                    /\ nth_error dcf k = Some (net_income i / p))
  /\ (forall v : float,
        npv pow i = Ok v <->
        exists dcf, discounted_cash_flows pow i = Ok dcf
                    /\ v = fold_left add dcf 0 - initial_investment i).
Proof.
  intros _. split; [|split].
  - split; [|apply cash_flows_repeat]. rewrite cash_flows_repeat. apply repeat_length.
  - apply discounted_cash_flows_Ok.
  - apply npv_Ok.
Qed.

End NPV.

Lemma npv_formula_witness :
  valid_inputs example_inputs
  /\ exists dcf : list float,
       discounted_cash_flows pow_cr example_inputs = Ok dcf
       /\ List.length dcf = 5%nat
       /\ npv pow_cr example_inputs
          = Ok (fold_left add dcf 0 - initial_investment example_inputs).
Proof.
  pose proof (npv_formula pow_cr example_inputs example_inputs_valid) as [_ [Hd Hn]].
  split; [exact example_inputs_valid|].
  destruct (discounted_cash_flows pow_cr example_inputs) as [dcf|e] eqn:E;
    [|vm_compute in E; discriminate E].
  exists dcf. split; [reflexivity|]. split.
  - apply (proj1 (Hd dcf)). reflexivity.
  - apply (proj2 (Hn _)). exists dcf. auto.
Defined.

Lemma long_horizon_inputs_valid : valid_inputs long_horizon_inputs.
Proof. constructor; cbn; try lia; split; reflexivity. Qed.

(** C2, the counterexample. On [long_horizon_inputs], a valid input, the
    power of line 42 raises OverflowError in the last year, so the script
    stops with an exception and there is no npv. *)
Lemma npv_overflows :
  valid_inputs long_horizon_inputs
  /\ float_pow pow_cr (1 + discount_rate long_horizon_inputs)
       (years long_horizon_inputs) = Raise OverflowError
  /\ exists e : exn, npv pow_cr long_horizon_inputs = Raise e.
Proof.
  split; [exact long_horizon_inputs_valid|]. split; [exact long_horizon_overflow|].
  destruct (npv pow_cr long_horizon_inputs) as [v|e] eqn:E; [exfalso|exists e; reflexivity].
  apply npv_Ok in E. destruct E as [dcf [Hd _]].
  apply discounted_cash_flows_Ok in Hd. destruct Hd as [_ H].
  destruct (H 4199%nat) as [p [Hp _]].
  - change (years long_horizon_inputs) with 4200%Z. lia.
  - change (Z.of_nat 4199 + 1)%Z with 4200%Z in Hp.
    rewrite long_horizon_overflow in Hp. discriminate Hp.
Qed.

(** * The scenario recomputation *)

Lemma adjust_zero (x : float) : adjust x 0 = x.
Proof.
  unfold adjust. change (1 + int_truediv 0 100) with 1. apply mul_one_r.
Qed.

Lemma adjust_int_zero (z : Z) : adjust_int z 0 = of_int z.
Proof.
  unfold adjust_int. change (1 + int_truediv 0 100) with 1. apply mul_one_r.
Qed.

Lemma rounding_inputs_valid : valid_inputs rounding_inputs.
Proof. constructor; cbn; try lia; split; reflexivity. Qed.

Section Scenario.

Variable pow : float -> Z -> float.

(** The recomputation returns exactly when the discounting of its flows
    does, and its fields are the expressions of lines 190-195. *)
Lemma recalculate_Ok (div : float -> float -> py float) (i : Inputs)
  (adj_sales adj_price adj_vc adj_fc : float) (a : Adjusted) :
  recalculate pow div i adj_sales adj_price adj_vc adj_fc = Ok a <->
  let e := adj_sales * adj_price - adj_sales * adj_vc - adj_fc in
  let n := if 0 <? e then e * (1 - int_truediv (tax_rate i) 100) else e in
  exists dcf,
    discount pow div (discount_rate i) 0 (repeat n (Z.to_nat (years i))) = Ok dcf
    /\ a = {| adj_revenue := adj_sales * adj_price; adj_ebit := e;
              adj_net_income := n;
              adj_cash_flows := repeat n (Z.to_nat (years i));
              adj_discounted_cash_flows := dcf;
              adj_npv := sum dcf - initial_investment i |}.
Proof.
  unfold recalculate. rewrite bind_Ok. cbv zeta. split.
  - intros [dcf [Hd H]]. injection H as <-. exists dcf. auto.
  - intros [dcf [Hd ->]]. exists dcf. auto.
Qed.

(** With all four deltas zero the adjusted values are the base values. *)
Lemma scenario_base_case (i : Inputs) (custom : factor -> Z) :
  scenario_financials pow i (changes BaseCase custom)
  = recalculate pow float_truediv i (of_int (sales_units i)) (price_per_unit i)
      (variable_cost_per_unit i) (fixed_cost i).
Proof.
  unfold scenario_financials, changes.
  rewrite adjust_int_zero, !adjust_zero. reflexivity.
Qed.

Lemma net_income_not_positive (i : Inputs) :
  (0 <? ebit i) = false -> net_income i = ebit i.
Proof.
  intro H. unfold net_income, tax_paid. rewrite H. apply sub_zero_r.
Qed.

(** The Base Case scenario, field by field. *)
Lemma base_case_fields (i : Inputs) (custom : factor -> Z) (a : Adjusted) :
  scenario_financials pow i (changes BaseCase custom) = Ok a ->
  adj_revenue a = revenue i
  /\ adj_ebit a = ebit i
  /\ adj_net_income a = untaxed_share i
  /\ ((0 <? ebit i) = false -> adj_net_income a = net_income i)
  /\ (adj_net_income a = net_income i -> npv pow i = Ok (adj_npv a)).
Proof.
  rewrite scenario_base_case. intro Ha.
  apply recalculate_Ok in Ha. destruct Ha as [dcf [Hd ->]].
  cbn [adj_revenue adj_ebit adj_net_income adj_npv].
  fold (revenue i) (total_variable_cost i). fold (ebit i). fold (untaxed_share i).
  repeat split.
  - intro Hneg. rewrite (net_income_not_positive i Hneg).
    unfold untaxed_share. rewrite Hneg. reflexivity.
  - intro Heq. fold (revenue i) (total_variable_cost i) in Hd.
    fold (ebit i) in Hd. fold (untaxed_share i) in Hd. rewrite Heq in Hd.
    unfold npv, discounted_cash_flows, cash_flows. rewrite map_const_range, Hd.
    reflexivity.
Qed.

(** The Base Case scenario returns exactly when the base NPV does. *)
Lemma base_case_returns (i : Inputs) (custom : factor -> Z) :
  (exists v, npv pow i = Ok v) <->
  (exists a, scenario_financials pow i (changes BaseCase custom) = Ok a).
Proof.
  rewrite scenario_base_case.
  unfold npv, discounted_cash_flows, cash_flows. rewrite map_const_range. split.
  - intros [v Hv]. apply bind_Ok in Hv. destruct Hv as [dcf [Hd _]].
    destruct (discount_total pow _ _ _ _
                (repeat (untaxed_share i) (Z.to_nat (years i))) Hd) as [[ds Hds] _].
    { rewrite !repeat_length. reflexivity. }
    eexists. apply recalculate_Ok. exists ds. split; [exact Hds|reflexivity].
  - intros [a Ha]. apply recalculate_Ok in Ha. destruct Ha as [dcf [Hd _]].
    destruct (discount_total pow _ _ _ _
                (repeat (net_income i) (Z.to_nat (years i))) Hd) as [[ds Hds] _].
    { rewrite !repeat_length. reflexivity. }
    rewrite Hds. cbn. eauto.
Qed.

(** X13. What the Base Case scenario has in common with the base
    section.  For every valid input it returns exactly when the base NPV
    does, and its revenue and ebit are the base ones.  Its net income is
    ebit * (1 - tax_rate/100) for a positive ebit and ebit otherwise: it is
    the base net income whenever ebit is not positive, and wherever the two
    net incomes agree the two NPVs agree as well. *)
Theorem base_case_reproduces (i : Inputs) (custom : factor -> Z) :
  valid_inputs i ->
  ((exists v, npv pow i = Ok v) <->
   (exists a, scenario_financials pow i (changes BaseCase custom) = Ok a))
  /\ forall a : Adjusted,
       scenario_financials pow i (changes BaseCase custom) = Ok a ->
       adj_revenue a = revenue i
       /\ adj_ebit a = ebit i
       /\ adj_net_income a = untaxed_share i
       /\ ((0 <? ebit i) = false -> adj_net_income a = net_income i)
       /\ (adj_net_income a = net_income i -> npv pow i = Ok (adj_npv a)).
Proof.
  intros _. split; [apply base_case_returns|apply base_case_fields].
Qed.

End Scenario.

Lemma base_case_reproduces_witness :
  valid_inputs example_inputs
  /\ exists a : Adjusted,
       scenario_financials pow_cr example_inputs (changes BaseCase (fun _ => 0%Z)) = Ok a
       /\ adj_revenue a = revenue example_inputs
       /\ adj_ebit a = ebit example_inputs.
Proof.
  pose proof (base_case_reproduces pow_cr example_inputs (fun _ => 0%Z)
                example_inputs_valid) as [_ H].
  split; [exact example_inputs_valid|].
  destruct (scenario_financials pow_cr example_inputs (changes BaseCase (fun _ => 0%Z)))
    as [a|e] eqn:E; [|vm_compute in E; discriminate E].
  exists a. destruct (H a eq_refl) as [Hr [He _]]. auto.
Defined.

(** C3, at the failing input. On [rounding_inputs] (the default values
    with a tax rate of 41 % and one year) the Base Case scenario does not
    reproduce the base result: line 192 computes ebit * (1 - tax_rate/100)
    where lines 37-38 compute ebit - ebit * (tax_rate/100), and its net
    income and its NPV are both strictly above the base ones. *)
Lemma base_case_differs :
  exists (a : Adjusted) (v : float),
    scenario_financials pow_cr rounding_inputs (changes BaseCase (fun _ => 0%Z)) = Ok a
    /\ npv pow_cr rounding_inputs = Ok v
    /\ (net_income rounding_inputs <? adj_net_income a) = true
    /\ (v <? adj_npv a) = true.
Proof.
  destruct (scenario_financials pow_cr rounding_inputs (changes BaseCase (fun _ => 0%Z)))
    as [a|e] eqn:Ea; [|vm_compute in Ea; discriminate Ea].
  destruct (npv pow_cr rounding_inputs) as [v|e] eqn:Ev;
    [|vm_compute in Ev; discriminate Ev].
  exists a, v. vm_compute in Ea. vm_compute in Ev.
  injection Ea as <-. injection Ev as <-.
  repeat split.
Qed.

(** * The scenario comparison *)

Lemma zero_npv_inputs_valid : valid_inputs zero_npv_inputs.
Proof. constructor; cbn; try lia; split; reflexivity. Qed.

Section Page.

Variable pow : float -> Z -> float.

(** What a returned page holds. *)
Lemma app_Ok (i : Inputs) (R N : Z) (s : scenario) (custom : factor -> Z) (page : Page) :
  app pow i R N s custom = Ok page ->
  npv pow i = Ok (page_npv page)
  /\ sensitivity_results pow i R N = Ok (page_sensitivity page)
  /\ scenario_financials pow i (changes s custom) = Ok (page_scenario page)
  /\ page_npv_delta page = adj_npv (page_scenario page) - page_npv page
  /\ page_label page = profitability_label (adj_npv (page_scenario page)) (page_npv page)
  /\ profitability_delta (adj_npv (page_scenario page)) (page_npv page)
     = Ok (page_delta page).
Proof.
  unfold app. intro H.
  apply bind_Ok in H. destruct H as [v [Hv H]].
  apply bind_Ok in H. destruct H as [rows [Hrows H]].
  apply bind_Ok in H. destruct H as [a [Ha H]].
  apply bind_Ok in H. destruct H as [d [Hd H]].
  injection H as <-. cbn. auto 10.
Qed.

(** The guard of line 208 covers the only division of the metric. *)
Lemma profitability_delta_eq (adj_npv npv : float) :
  profitability_delta adj_npv npv
  = if npv =? 0 then Ok (Text "N/A")
    else Ok (Percent ((adj_npv - npv) / abs npv * 100)).
Proof.
  unfold profitability_delta, float_truediv. rewrite abs_eqb_zero.
  destruct (npv =? 0); reflexivity.
Qed.

(** C6. For every valid input and every selected scenario the percent
    delta of the Profitability Change metric is
    (adjusted npv - base npv) / |base npv| * 100 when the base npv is not
    zero and the text "N/A" when it is zero; computing it raises nothing. *)
Theorem percent_delta_guarded :
  (forall adj_npv npv : float,
      exists d : delta_text,
        profitability_delta adj_npv npv = Ok d
        /\ d = if npv =? 0 then Text "N/A"
               else Percent ((adj_npv - npv) / abs npv * 100))
  /\ (forall (i : Inputs) (R N : Z) (s : scenario) (custom : factor -> Z) (page : Page),
        valid_inputs i ->
        app pow i R N s custom = Ok page ->
        page_delta page
        = if page_npv page =? 0 then Text "N/A"
          else Percent ((adj_npv (page_scenario page) - page_npv page)
                        / abs (page_npv page) * 100)).
Proof.
  split.
  - intros a v. rewrite profitability_delta_eq.
    destruct (v =? 0); eexists; split; reflexivity.
  - intros i R N s custom page _ H. apply app_Ok in H.
    destruct H as [_ [_ [_ [_ [_ Hd]]]]]. rewrite profitability_delta_eq in Hd.
    destruct (page_npv page =? 0); injection Hd as <-; reflexivity.
Qed.

(** The label of line 207 is a strict comparison. *)
Lemma profitability_label_Improved (adj_npv npv : float) :
  profitability_label adj_npv npv = "Improved"%string <-> (npv <? adj_npv) = true.
Proof.
  unfold profitability_label. destruct (npv <? adj_npv); split; auto; discriminate.
Qed.

Lemma profitability_label_equal (adj_npv npv : float) :
  (npv =? adj_npv) = true \/ adj_npv = npv ->
  profitability_label adj_npv npv = "Worsened"%string.
Proof.
  unfold profitability_label. intros [H| ->].
  - rewrite (eqb_not_ltb _ _ H). reflexivity.
  - rewrite ltb_irrefl. reflexivity.
Qed.

(** C9, as amended. The label reads "Improved" exactly when the adjusted
    npv is strictly greater than the base npv, and "Worsened" otherwise, in
    particular whenever the two are equal.  The Base Case shows "Worsened",
    with a zero delta for a finite npv, wherever its net income equals the
    base net income, which is so whenever ebit is not positive. *)
Theorem profitability_label_strict :
  (forall adj_npv npv : float,
      (profitability_label adj_npv npv = "Improved"%string <-> (npv <? adj_npv) = true)
      /\ ((npv <? adj_npv) = false -> profitability_label adj_npv npv = "Worsened"%string)
      /\ ((npv =? adj_npv) = true \/ adj_npv = npv ->
          profitability_label adj_npv npv = "Worsened"%string))
  /\ (forall (i : Inputs) (R N : Z) (custom : factor -> Z) (page : Page),
        valid_inputs i ->
        app pow i R N BaseCase custom = Ok page ->
        ((0 <? ebit i) = false ->
         adj_net_income (page_scenario page) = net_income i)
        /\ (adj_net_income (page_scenario page) = net_income i ->
            page_label page = "Worsened"%string
            /\ adj_npv (page_scenario page) = page_npv page
            /\ (is_finite (page_npv page) = true -> page_npv_delta page = 0))).
Proof.
  split.
  - intros a v. split; [apply profitability_label_Improved|]. split.
    + intro H. unfold profitability_label. rewrite H. reflexivity.
    + apply profitability_label_equal.
  - intros i R N custom page _ H. apply app_Ok in H.
    destruct H as [Hv [_ [Ha [Hdelta [Hlabel _]]]]].
    destruct (base_case_fields pow i custom _ Ha) as [_ [_ [_ [Hneg Heq]]]].
    split; [exact Hneg|]. intro Hn. specialize (Heq Hn).
    rewrite Hv in Heq. injection Heq as Heq.
    rewrite Hlabel, Hdelta, <- Heq. repeat split.
    + apply profitability_label_equal. auto.
    + apply sub_diag_finite.
Qed.

End Page.

(** * The sensitivity sweep *)

(** A zero change leaves the factor [1 + pct_change/100] at exactly 1. *)
Lemma one_plus_zero_pct (c : float) : (c =? 0) = true -> 1 + c / 100 = 1.
Proof.
  rewrite eqb_spec, Prim2SF_zero. intro H.
  apply Prim2SF_inj. rewrite add_spec, div_spec, Prim2SF_one.
  set (h := Prim2SF 100). vm_compute in h. subst h.
  destruct (Prim2SF c) as [[|]|[|]| |[|] m e]; try discriminate H; reflexivity.
Qed.

Lemma for_each_Ok {A B : Type} (f : A -> py B) (l : list A) : forall ys : list B,
  for_each f l = Ok ys <-> Forall2 (fun x y => f x = Ok y) l ys.
Proof.
  induction l as [|x rest IH]; intro ys; cbn [for_each].
  - split.
    + intro H. injection H as <-. constructor.
    + intro H. inversion H. reflexivity.
  - rewrite bind_Ok. split.
    + intros [y [Hy H]]. apply bind_Ok in H. destruct H as [ys' [Hys H]].
      injection H as <-. constructor; [exact Hy|]. apply IH. exact Hys.
    + intro H. inversion H as [|x' y l' ys' Hy Hrest]; subst.
      exists y. split; [exact Hy|]. apply bind_Ok. exists ys'.
      split; [apply IH; exact Hrest|reflexivity].
Qed.

Lemma for_each_total {A B : Type} (f : A -> py B) (l : list A) :
  (forall x, In x l -> exists y, f x = Ok y) -> exists ys, for_each f l = Ok ys.
Proof.
  induction l as [|x rest IH]; intro H; cbn [for_each]; [eauto|].
  destruct (H x (or_introl eq_refl)) as [y Hy].
  destruct IH as [ys Hys]; [intros z Hz; apply H; right; exact Hz|].
  rewrite Hy, Hys. cbn. eauto.
Qed.

(** The grids of the two sliders: evenly spaced from [-R] to [R],
    increasing (strictly for a positive range), and through a zero. *)
Lemma slider_grid (R N : Z) :
  In R sensitivity_range_values -> In N sensitivity_steps_values ->
  linspace (- R) R N = Ok (even_grid R N)
  /\ List.length (even_grid R N) = Z.to_nat N
  /\ nth_error (even_grid R N) 0 = Some (of_int (- R))
  /\ nth_error (even_grid R N) (Z.to_nat N - 1) = Some (of_int R)
  /\ increasing (0 <? R)%Z (even_grid R N) = true
  /\ existsb (fun c => c =? 0) (even_grid R N) = true.
Proof.
  unfold sensitivity_range_values, sensitivity_steps_values. intros HR HN.
  repeat (destruct HR as [<-|HR]; [|try contradiction]);
    repeat (destruct HN as [<-|HN]; [|try contradiction]);
    (split; [vm_compute; reflexivity|]); repeat split; vm_compute; reflexivity.
Qed.

Lemma Forall2_nth_l {A B : Type} (P : A -> B -> Prop) (l : list A) (l' : list B) :
  Forall2 P l l' ->
  forall (k : nat) (x : A), nth_error l k = Some x ->
    exists y, nth_error l' k = Some y /\ P x y.
Proof.
  induction 1 as [|x y l l' Hxy _ IH]; intros [|k] z Hz; try discriminate Hz.
  - injection Hz as <-. exists y. auto.
  - apply IH. exact Hz.
Qed.

Lemma nth_error_concat_uniform {A : Type} (n : nat) (ls : list (list A)) :
  Forall (fun l => List.length l = n) ls ->
  forall (j k : nat) (l : list A),
    nth_error ls j = Some l -> (k < n)%nat ->
    nth_error (List.concat ls) (j * n + k) = nth_error l k.
Proof.
  induction 1 as [|l0 ls Hl0 _ IH]; intros [|j] k l Hj Hk; try discriminate Hj.
  - injection Hj as <-. cbn. apply nth_error_app1. lia.
  - cbn [List.concat]. rewrite nth_error_app2 by (cbn; lia).
    replace (S j * n + k - List.length l0)%nat with (j * n + k)%nat by (cbn; lia).
    apply IH; assumption.
Qed.

Section Sensitivity.

Variable pow : float -> Z -> float.

Lemma perturb_swept (i : Inputs) (f : factor) (c : float) :
  perturb i f c
  = (swept_value i f c Sales, swept_value i f c Price,
     swept_value i f c VariableCost, swept_value i f c FixedCost).
Proof. destruct f; reflexivity. Qed.

(** A row holds its factor, its change, and the NPV recomputed from the
    four values of which only the factor's own is changed. *)
Lemma sensitivity_row_Ok (i : Inputs) (f : factor) (c : float) (row : SensitivityRow) :
  sensitivity_row pow i f c = Ok row <->
  exists a : Adjusted,
    recalculate pow np_truediv i (swept_value i f c Sales) (swept_value i f c Price)
      (swept_value i f c VariableCost) (swept_value i f c FixedCost) = Ok a
    /\ row = {| Factor := f; Change := c; NPV := adj_npv a |}.
Proof.
  unfold sensitivity_row. rewrite perturb_swept, bind_Ok. split.
  - intros [a [Ha H]]. injection H as <-. exists a. auto.
  - intros [a [Ha ->]]. exists a. auto.
Qed.

(** Once the base NPV is there, every recomputation returns: it takes the
    same powers over the same number of years. *)
Lemma recalculate_total (i : Inputs) (v : float) (adj_sales adj_price adj_vc adj_fc : float) :
  npv pow i = Ok v ->
  (exists a, recalculate pow float_truediv i adj_sales adj_price adj_vc adj_fc = Ok a)
  /\ (exists a, recalculate pow np_truediv i adj_sales adj_price adj_vc adj_fc = Ok a).
Proof.
  unfold npv, discounted_cash_flows. intro Hv.
  apply bind_Ok in Hv. destruct Hv as [dcf [Hd _]].
  set (e := adj_sales * adj_price - adj_sales * adj_vc - adj_fc).
  set (n := if 0 <? e then e * (1 - int_truediv (tax_rate i) 100) else e).
  destruct (discount_total pow _ _ _ _ (repeat n (Z.to_nat (years i))) Hd)
    as [[d1 H1] [d2 H2]].
  { unfold cash_flows. rewrite repeat_length, length_map, length_range. reflexivity. }
  split; eexists; apply recalculate_Ok; eexists; split; try reflexivity; eassumption.
Qed.

Lemma sensitivity_row_total (i : Inputs) (v : float) (f : factor) (c : float) :
  npv pow i = Ok v -> exists row, sensitivity_row pow i f c = Ok row.
Proof.
  intro Hv.
  destruct (recalculate_total i v (swept_value i f c Sales) (swept_value i f c Price)
              (swept_value i f c VariableCost) (swept_value i f c FixedCost) Hv)
    as [_ [a Ha]].
  eexists. apply sensitivity_row_Ok. exists a. split; [exact Ha|reflexivity].
Qed.

(** The two loops: one group of rows per factor, in the order of
    [factors], each group following the grid. *)
Lemma sensitivity_results_Ok (i : Inputs) (R N : Z) (grid : list float)
  (rows : list SensitivityRow) :
  linspace (- R) R N = Ok grid ->
  (sensitivity_results pow i R N = Ok rows <->
   exists groups : list (list SensitivityRow),
     Forall2 (fun f group =>
                Forall2 (fun c row => sensitivity_row pow i f c = Ok row) grid group)
             factors groups
     /\ rows = List.concat groups).
Proof.
  intro Hg. unfold sensitivity_results. rewrite bind_Ok. split.
  - intros [groups [H Hrows]]. injection Hrows as <-. exists groups.
    split; [|reflexivity]. apply for_each_Ok in H.
    eapply Forall2_impl; [|exact H]. cbn beta. intros f group Hf.
    rewrite Hg in Hf. cbn [bind] in Hf. apply for_each_Ok. exact Hf.
  - intros [groups [H ->]]. exists groups. split; [|reflexivity].
    apply for_each_Ok. eapply Forall2_impl; [|exact H]. cbn beta.
    intros f group Hf. rewrite Hg. cbn [bind]. apply for_each_Ok. exact Hf.
Qed.

Lemma sensitivity_results_total (i : Inputs) (R N : Z) (grid : list float) (v : float) :
  linspace (- R) R N = Ok grid -> npv pow i = Ok v ->
  exists rows, sensitivity_results pow i R N = Ok rows.
Proof.
  intros Hg Hv. unfold sensitivity_results.
  destruct (for_each_total
              (fun f => g <- linspace (- R) R N ;; for_each (sensitivity_row pow i f) g)
              factors) as [groups Hgroups].
  { intros f _. rewrite Hg. cbn [bind]. apply for_each_total.
    intros c _. apply (sensitivity_row_total i v). exact Hv. }
  rewrite Hgroups. cbn. eauto.
Qed.

End Sensitivity.

Lemma length_concat_uniform {A : Type} (n : nat) (ls : list (list A)) :
  Forall (fun l => List.length l = n) ls ->
  List.length (List.concat ls) = (List.length ls * n)%nat.
Proof.
  induction 1 as [|l ls Hl _ IH]; [reflexivity|].
  cbn. rewrite length_app, IH, Hl. reflexivity.
Qed.

Lemma Forall2_In_r {A B : Type} (P : A -> B -> Prop) (l : list A) (l' : list B) :
  Forall2 P l l' -> forall y : B, In y l' -> exists x, In x l /\ P x y.
Proof.
  induction 1 as [|x y0 l l' Hxy _ IH]; intros y Hy; [contradiction|].
  destruct Hy as [<-|Hy].
  - exists x. split; [left; reflexivity|exact Hxy].
  - destruct (IH y Hy) as [x' [Hx' Hp]]. exists x'. split; [right; exact Hx'|exact Hp].
Qed.

Lemma Forall2_In_l {A B : Type} (P : A -> B -> Prop) (l : list A) (l' : list B) :
  Forall2 P l l' -> forall x : A, In x l -> exists y, In y l' /\ P x y.
Proof.
  induction 1 as [|x0 y l l' Hxy _ IH]; intros x Hx; [contradiction|].
  destruct Hx as [<-|Hx].
  - exists y. split; [left; reflexivity|exact Hxy].
  - destruct (IH x Hx) as [y' [Hy' Hp]]. exists y'. split; [right; exact Hy'|exact Hp].
Qed.

Lemma swept_value_zero (i : Inputs) (f : factor) (c : float) (g : factor) :
  (c =? 0) = true -> swept_value i f c g = base_value i g.
Proof.
  intro Hc. unfold swept_value. destruct (factor_eqb f g); [|reflexivity].
  rewrite (one_plus_zero_pct c Hc). apply mul_one_r.
Qed.

Section Sweep.

Variable pow : float -> Z -> float.

Lemma recalculate_np_float (i : Inputs) (adj_sales adj_price adj_vc adj_fc : float)
  (a : Adjusted) :
  recalculate pow float_truediv i adj_sales adj_price adj_vc adj_fc = Ok a ->
  recalculate pow np_truediv i adj_sales adj_price adj_vc adj_fc = Ok a.
Proof.
  intro H. apply recalculate_Ok in H. destruct H as [dcf [Hd ->]].
  apply recalculate_Ok. exists dcf. split; [|reflexivity].
  apply discount_np_float. exact Hd.
Qed.

(** The groups of a returned sweep all have the length of the grid. *)
Lemma sweep_groups_uniform (i : Inputs) (grid : list float)
  (groups : list (list SensitivityRow)) :
  Forall2 (fun f group =>
             Forall2 (fun c row => sensitivity_row pow i f c = Ok row) grid group)
          factors groups ->
  List.length groups = 4%nat
  /\ Forall (fun l => List.length l = List.length grid) groups.
Proof.
  intro H. split.
  - apply Forall2_length in H. symmetry. exact H.
  - apply Forall_forall. intros group Hin.
    destruct (Forall2_In_r _ _ _ H group Hin) as [f [_ Hf]].
    apply Forall2_length in Hf. symmetry. exact Hf.
Qed.

(** C5, as amended. For every valid input whose base NPV is there (the
    script has passed line 42 without an OverflowError), and every setting
    R, N of the two sliders, the sweep returns 4 * N rows.  The changes are
    the N evenly spaced samples from -R to R, in increasing order; row
    j * N + k is that of the j-th factor (Sales, Price, Variable Cost,
    Fixed Cost) at the k-th change, and its NPV is recomputed from the four
    base values with only that factor's value changed. *)
Theorem sensitivity_sweep_rows (i : Inputs) (R N : Z) (v : float) :
  valid_inputs i ->
  In R sensitivity_range_values -> In N sensitivity_steps_values ->
  npv pow i = Ok v ->
  exists rows : list SensitivityRow,
    sensitivity_results pow i R N = Ok rows
    /\ List.length rows = (4 * Z.to_nat N)%nat
    /\ (linspace (- R) R N = Ok (even_grid R N)
        /\ List.length (even_grid R N) = Z.to_nat N
        /\ nth_error (even_grid R N) 0 = Some (of_int (- R))
        /\ nth_error (even_grid R N) (Z.to_nat N - 1) = Some (of_int R)
        /\ increasing (0 <? R)%Z (even_grid R N) = true)
    /\ (forall (j k : nat) (f : factor) (c : float),
          nth_error factors j = Some f ->
          nth_error (even_grid R N) k = Some c ->
          exists a : Adjusted,
            recalculate pow np_truediv i
              (swept_value i f c Sales) (swept_value i f c Price)
              (swept_value i f c VariableCost) (swept_value i f c FixedCost) = Ok a
            /\ nth_error rows (j * Z.to_nat N + k)
               = Some {| Factor := f; Change := c; NPV := adj_npv a |})
    /\ (forall (f g : factor) (c : float),
          swept_value i f c g
          = if factor_eqb f g then base_value i g * (1 + c / 100) else base_value i g).
Proof.
  intros _ HR HN Hv.
  destruct (slider_grid R N HR HN) as [Hg [Hlen [Hfirst [Hlast [Hinc _]]]]].
  destruct (sensitivity_results_total pow i R N _ v Hg Hv) as [rows Hrows].
  exists rows. split; [exact Hrows|].
  apply (sensitivity_results_Ok pow i R N _ rows Hg) in Hrows.
  destruct Hrows as [groups [Hgroups ->]].
  destruct (sweep_groups_uniform i _ _ Hgroups) as [H4 Hu]. rewrite Hlen in Hu.
  split; [|split; [auto 10|split]].
  - rewrite (length_concat_uniform _ _ Hu), H4. reflexivity.
  - intros j k f c Hj Hk.
    destruct (Forall2_nth_l _ _ _ Hgroups j f Hj) as [group [Hgj Hgroup]].
    destruct (Forall2_nth_l _ _ _ Hgroup k c Hk) as [row [Hrow Hr]].
    apply sensitivity_row_Ok in Hr. destruct Hr as [a [Ha ->]].
    exists a. split; [exact Ha|].
    rewrite (nth_error_concat_uniform _ _ Hu j k group Hgj); [exact Hrow|].
    rewrite <- Hlen. apply nth_error_Some. congruence.
  - reflexivity.
Qed.

(** X12. The four series meet at the zero change.  For every valid
    input whose base NPV is there, and every setting of the two sliders (an
    odd number of steps), each of the four factors has a row at change 0,
    and all rows at change 0 carry one NPV: that of the recomputation of
    lines 105-110 at the four unchanged base values, which is the sum, from
    left to right, of its discounted cash flows, minus the investment.
    That recomputation has the base revenue and ebit; its net income is
    ebit * (1 - tax_rate/100) for a positive ebit and ebit otherwise, which
    is the base net income whenever ebit is not positive; and wherever the
    two net incomes agree its discounted cash flows are those of line 42. *)
Theorem zero_change_rows (i : Inputs) (R N : Z) (v : float) :
  valid_inputs i ->
  In R sensitivity_range_values -> In N sensitivity_steps_values ->
  npv pow i = Ok v ->
  exists (rows : list SensitivityRow) (a : Adjusted),
    sensitivity_results pow i R N = Ok rows
    /\ recalculate pow np_truediv i (of_int (sales_units i)) (price_per_unit i)
         (variable_cost_per_unit i) (fixed_cost i) = Ok a
    /\ (forall f : factor,
          exists row, In row rows /\ Factor row = f /\ (Change row =? 0) = true)
    /\ (forall row : SensitivityRow,
          In row rows -> (Change row =? 0) = true -> NPV row = adj_npv a)
    /\ adj_npv a = sum (adj_discounted_cash_flows a) - initial_investment i
    /\ adj_revenue a = revenue i
    /\ adj_ebit a = ebit i
    /\ adj_net_income a = untaxed_share i
    /\ ((0 <? ebit i) = false -> adj_net_income a = net_income i)
    /\ (adj_net_income a = net_income i ->
        discounted_cash_flows pow i = Ok (adj_discounted_cash_flows a)).
Proof.
  intros _ HR HN Hv.
  destruct (slider_grid R N HR HN) as [Hg [_ [_ [_ [_ Hzero]]]]].
  destruct (sensitivity_results_total pow i R N _ v Hg Hv) as [rows Hrows].
  destruct (recalculate_total pow i v (of_int (sales_units i)) (price_per_unit i)
              (variable_cost_per_unit i) (fixed_cost i) Hv) as [_ [a Ha]].
  exists rows, a. split; [exact Hrows|]. split; [exact Ha|].
  apply (sensitivity_results_Ok pow i R N _ rows Hg) in Hrows.
  destruct Hrows as [groups [Hgroups ->]].
  split; [|split].
  - intro f. apply existsb_exists in Hzero. destruct Hzero as [c [Hc Hc0]].
    assert (Hf : In f factors) by (destruct f; cbn; auto).
    destruct (Forall2_In_l _ _ _ Hgroups f Hf) as [group [Hgroup Hrows]].
    destruct (Forall2_In_l _ _ _ Hrows c Hc) as [row [Hrow Hr]].
    exists row. apply sensitivity_row_Ok in Hr. destruct Hr as [a' [_ ->]].
    repeat split; [|exact Hc0]. apply in_concat. exists group. auto.
  - intros row Hin Hc0. apply in_concat in Hin. destruct Hin as [group [Hgroup Hrow]].
    destruct (Forall2_In_r _ _ _ Hgroups group Hgroup) as [f [_ Hf]].
    destruct (Forall2_In_r _ _ _ Hf row Hrow) as [c [_ Hr]].
    apply sensitivity_row_Ok in Hr. destruct Hr as [a' [Ha' ->]].
    cbn [Change] in Hc0. cbn [NPV].
    rewrite !(swept_value_zero i f c _ Hc0) in Ha'. cbn [base_value] in Ha'.
    congruence.
  - apply recalculate_Ok in Ha. destruct Ha as [dcf [Hd ->]].
    cbn [adj_revenue adj_ebit adj_net_income adj_discounted_cash_flows adj_npv].
    fold (revenue i) (total_variable_cost i). fold (ebit i). fold (untaxed_share i).
    fold (revenue i) (total_variable_cost i) in Hd.
    fold (ebit i) in Hd. fold (untaxed_share i) in Hd.
    repeat split.
    + intro Hneg. rewrite (net_income_not_positive i Hneg).
      unfold untaxed_share. rewrite Hneg. reflexivity.
    + intro Heq. rewrite Heq in Hd.
      apply npv_Ok in Hv. destruct Hv as [dcf0 [Hd0 _]]. rewrite Hd0.
      unfold discounted_cash_flows in Hd0. rewrite cash_flows_repeat in Hd0.
      apply discount_np_float in Hd0. congruence.
Qed.

End Sweep.

Lemma sensitivity_sweep_rows_witness :
  valid_inputs example_inputs
  /\ In 20%Z sensitivity_range_values /\ In 5%Z sensitivity_steps_values
  /\ exists rows : list SensitivityRow,
       sensitivity_results pow_cr example_inputs 20 5 = Ok rows
       /\ List.length rows = 20%nat.
Proof.
  assert (HR : In 20%Z sensitivity_range_values) by (cbn; tauto).
  assert (HN : In 5%Z sensitivity_steps_values) by (cbn; tauto).
  destruct (npv pow_cr example_inputs) as [v|e] eqn:Hv;
    [|vm_compute in Hv; discriminate Hv].
  destruct (sensitivity_sweep_rows pow_cr example_inputs 20 5 v
              example_inputs_valid HR HN Hv) as [rows [Hrows [Hlen _]]].
  split; [exact example_inputs_valid|]. split; [exact HR|]. split; [exact HN|].
  exists rows. auto.
Defined.

Lemma zero_change_rows_witness :
  valid_inputs example_inputs
  /\ In 20%Z sensitivity_range_values /\ In 5%Z sensitivity_steps_values
  /\ exists (rows : list SensitivityRow) (a : Adjusted),
       sensitivity_results pow_cr example_inputs 20 5 = Ok rows
       /\ forall row : SensitivityRow,
            In row rows -> (Change row =? 0) = true -> NPV row = adj_npv a.
Proof.
  assert (HR : In 20%Z sensitivity_range_values) by (cbn; tauto).
  assert (HN : In 5%Z sensitivity_steps_values) by (cbn; tauto).
  destruct (npv pow_cr example_inputs) as [v|e] eqn:Hv;
    [|vm_compute in Hv; discriminate Hv].
  destruct (zero_change_rows pow_cr example_inputs 20 5 v
              example_inputs_valid HR HN Hv) as [rows [a [Hrows [_ [_ [Hz _]]]]]].
  split; [exact example_inputs_valid|]. split; [exact HR|]. split; [exact HN|].
  exists rows, a. auto.
Defined.

(** Whichever division the loop uses, it returns only if every power is
    there. *)
Lemma discount_powers (pow : float -> Z -> float) (div : float -> float -> py float)
  (rate : float) (cfs : list float) : forall (i : Z) (ds : list float),
  discount pow div rate i cfs = Ok ds ->
  forall k : nat, (k < List.length cfs)%nat ->
    exists p, float_pow pow (1 + rate) (i + Z.of_nat k + 1) = Ok p.
Proof.
  induction cfs as [|cf rest IH]; intros i ds H k Hk; [cbn in Hk; lia|].
  cbn [discount] in H. apply bind_Ok in H. destruct H as [p [Hp H]].
  apply bind_Ok in H. destruct H as [d [_ H]].
  apply bind_Ok in H. destruct H as [ds' [Hds _]].
  destruct k as [|k].
  - exists p. rewrite Z.add_0_r. exact Hp.
  - destruct (IH _ _ Hds k) as [q Hq]; [cbn in Hk; lia|]. exists q.
    replace (i + Z.of_nat (S k) + 1)%Z with (i + 1 + Z.of_nat k + 1)%Z by lia.
    exact Hq.
Qed.

(** No recomputation returns on [long_horizon_inputs]: its last power is
    beyond the binary64 range. *)
Lemma long_horizon_recalculate (div : float -> float -> py float)
  (adj_sales adj_price adj_vc adj_fc : float) (a : Adjusted) :
  recalculate pow_cr div long_horizon_inputs adj_sales adj_price adj_vc adj_fc = Ok a ->
  False.
Proof.
  intro Ha. apply recalculate_Ok in Ha. destruct Ha as [dcf [Hd _]].
  destruct (discount_powers _ _ _ _ _ _ Hd 4199%nat) as [p Hp].
  - rewrite repeat_length. change (years long_horizon_inputs) with 4200%Z. lia.
  - change (0 + Z.of_nat 4199 + 1)%Z with 4200%Z in Hp.
    rewrite long_horizon_overflow in Hp. discriminate Hp.
Qed.

(** C5, the counterexample. On [long_horizon_inputs], a valid input, with
    the sliders at their defaults, the sweep produces no rows: the power
    of line 109 raises OverflowError in the last year of the first row (as
    line 42 has done before it). *)
Lemma sweep_overflows :
  valid_inputs long_horizon_inputs
  /\ In 20%Z sensitivity_range_values /\ In 5%Z sensitivity_steps_values
  /\ float_pow pow_cr (1 + discount_rate long_horizon_inputs)
       (years long_horizon_inputs) = Raise OverflowError
  /\ exists e : exn, sensitivity_results pow_cr long_horizon_inputs 20 5 = Raise e.
Proof.
  assert (HR : In 20%Z sensitivity_range_values) by (cbn; tauto).
  assert (HN : In 5%Z sensitivity_steps_values) by (cbn; tauto).
  split; [exact long_horizon_inputs_valid|]. split; [exact HR|]. split; [exact HN|].
  split; [exact long_horizon_overflow|].
  destruct (sensitivity_results pow_cr long_horizon_inputs 20 5) as [rows|e] eqn:E;
    [exfalso|exists e; reflexivity].
  destruct (slider_grid 20 5 HR HN) as [Hg [_ [Hfirst _]]].
  apply (sensitivity_results_Ok pow_cr long_horizon_inputs 20 5 _ rows Hg) in E.
  destruct E as [groups [Hgroups _]].
  destruct (Forall2_nth_l _ _ _ Hgroups 0%nat Sales eq_refl) as [group [_ Hgroup]].
  cbn beta in Hgroup.
  destruct (Forall2_nth_l _ _ _ Hgroup 0%nat _ Hfirst) as [row [_ Hrow]].
  cbn beta in Hrow. apply sensitivity_row_Ok in Hrow. destruct Hrow as [a [Ha _]].
  exact (long_horizon_recalculate _ _ _ _ _ a Ha).
Qed.

(** C4, at the failing input. On [rounding_inputs] (the default values
    with a tax rate of 41 % and one year), with the sliders at their
    defaults, the Sales row at change 0 carries an NPV strictly above the
    base npv: line 107 computes ebit * (1 - tax_rate/100) where lines 37-38
    compute ebit - ebit * (tax_rate/100).  With one year each sum has a
    single term. *)
Lemma sensitivity_zero_change_differs :
  exists (rows : list SensitivityRow) (row : SensitivityRow) (v : float),
    sensitivity_results pow_cr rounding_inputs 20 5 = Ok rows
    /\ npv pow_cr rounding_inputs = Ok v
    /\ nth_error rows 2 = Some row
    /\ Factor row = Sales
    /\ (Change row =? 0) = true
    /\ (v <? NPV row) = true.
Proof.
  destruct (sensitivity_results pow_cr rounding_inputs 20 5) as [rows|e] eqn:Er;
    [|vm_compute in Er; discriminate Er].
  destruct (npv pow_cr rounding_inputs) as [v|e] eqn:Ev;
    [|vm_compute in Ev; discriminate Ev].
  vm_compute in Er. vm_compute in Ev. injection Er as <-. injection Ev as <-.
  eexists. eexists. eexists.
  split; [reflexivity|]. split; [reflexivity|]. split; [reflexivity|].
  repeat split.
Qed.

Lemma percent_delta_guarded_witness :
  valid_inputs zero_npv_inputs
  /\ exists page : Page,
       app pow_cr zero_npv_inputs 20 5 BestCase (fun _ => 0%Z) = Ok page
       /\ page_npv page = 0
       /\ page_delta page = Text "N/A".
Proof.
  split; [exact zero_npv_inputs_valid|].
  destruct (app pow_cr zero_npv_inputs 20 5 BestCase (fun _ => 0%Z)) as [page|e] eqn:E;
    [|vm_compute in E; discriminate E].
  pose proof (proj2 (percent_delta_guarded pow_cr) _ _ _ _ _ page
                zero_npv_inputs_valid E) as H.
  exists page. vm_compute in E. injection E as <-.
  split; [reflexivity|]. split; [reflexivity|exact H].
Defined.

Lemma profitability_label_strict_witness :
  valid_inputs zero_npv_inputs
  /\ exists page : Page,
       app pow_cr zero_npv_inputs 20 5 BaseCase (fun _ => 0%Z) = Ok page
       /\ page_label page = "Worsened"%string
       /\ page_npv_delta page = 0.
Proof.
  split; [exact zero_npv_inputs_valid|].
  destruct (app pow_cr zero_npv_inputs 20 5 BaseCase (fun _ => 0%Z)) as [page|e] eqn:E;
    [|vm_compute in E; discriminate E].
  destruct (proj2 (profitability_label_strict pow_cr) _ _ _ _ page
              zero_npv_inputs_valid E) as [Hneg H].
  destruct (H (Hneg eq_refl)) as [Hl [_ Hd]].
  exists page. split; [reflexivity|]. split; [exact Hl|].
  apply Hd. vm_compute in E. injection E as <-. reflexivity.
Defined.

(** C9, the counterexample. On [rounding_inputs] the Base Case itself is
    labelled "Improved", with a positive delta. *)
Lemma base_case_labelled_improved :
  exists page : Page,
    app pow_cr rounding_inputs 20 5 BaseCase (fun _ => 0%Z) = Ok page
    /\ page_label page = "Improved"%string
    /\ (0 <? page_npv_delta page) = true.
Proof.
  destruct (app pow_cr rounding_inputs 20 5 BaseCase (fun _ => 0%Z)) as [page|e] eqn:E;
    [|vm_compute in E; discriminate E].
  exists page. vm_compute in E. injection E as <-. repeat split.
Qed.

(** * The example of the form's defaults *)

Section Example.

Variable pow : float -> Z -> float.

(** The platform's [pow] is accurate to one unit in the last place on the
    five powers of 1.1 that the example takes. *)
Hypothesis pow_accurate :
  forall k : Z, (1 <= k <= 5)%Z ->
    pow_faithful pow (1 + discount_rate example_inputs) k.

(** The example's NPV and the NPVs of its Best and Worst Case, for every
    such [pow]: 243 cases, each one a computation. *)
Lemma example_npvs (custom : factor -> Z) :
  exists (v : float) (best worst : Adjusted),
    npv pow example_inputs = Ok v
    /\ scenario_financials pow example_inputs (changes BestCase custom) = Ok best
    /\ scenario_financials pow example_inputs (changes WorstCase custom) = Ok worst
    /\ rounds_to_cents v (of_int 5581574 / of_int 100) = true
    /\ (v <? adj_npv best) = true
    /\ (adj_npv worst <? v) = true.
Proof.
  pose proof (pow_accurate 1 ltac:(lia)) as H1.
  pose proof (pow_accurate 2 ltac:(lia)) as H2.
  pose proof (pow_accurate 3 ltac:(lia)) as H3.
  pose proof (pow_accurate 4 ltac:(lia)) as H4.
  pose proof (pow_accurate 5 ltac:(lia)) as H5.
  unfold pow_faithful in *.
  vm_compute in H1, H2, H3, H4, H5. vm_compute.
  destruct H1 as [E1|[E1|E1]]; destruct H2 as [E2|[E2|E2]];
    destruct H3 as [E3|[E3|E3]]; destruct H4 as [E4|[E4|E4]];
    destruct H5 as [E5|[E5|E5]];
    rewrite E1, E2, E3, E4, E5; vm_compute;
    (eexists; eexists; eexists; repeat split; reflexivity).
Qed.

(** C7. For the example inputs (1000 units at 50, variable cost 20, fixed
    cost 5000, tax 20 %, discount 10 %, 5 years, investment 20000) the Best
    Case scenario yields an adjusted NPV strictly greater than the base
    NPV, and the Worst Case scenario a strictly lower one. *)
Theorem best_and_worst_case :
  exists (v : float) (best worst : Adjusted),
    npv pow example_inputs = Ok v
    /\ scenario_financials pow example_inputs (changes BestCase (fun _ => 0%Z)) = Ok best
    /\ scenario_financials pow example_inputs (changes WorstCase (fun _ => 0%Z)) = Ok worst
    /\ (v <? adj_npv best) = true
    /\ (adj_npv worst <? v) = true.
Proof.
  destruct (example_npvs (fun _ => 0%Z)) as [v [best [worst [Hv [Hb [Hw [_ [H1 H2]]]]]]]].
  exists v, best, worst. auto.
Qed.

(** C8, as amended. For the example inputs the computation yields
    revenue = 50000, ebit = 25000, tax_paid = 5000, net_income = 20000, and
    an npv, 20000 * (1 - 1.1^-5) / 0.10 - 20000, that shows as 55815.74 once
    rounded to cents. *)
Theorem example_figures :
  revenue example_inputs = 50000
  /\ ebit example_inputs = 25000
  /\ tax_paid example_inputs = 5000
  /\ net_income example_inputs = 20000
  /\ exists v : float,
       npv pow example_inputs = Ok v
       /\ rounds_to_cents v (of_int 5581574 / of_int 100) = true.
Proof.
  repeat split.
  destruct (example_npvs (fun _ => 0%Z)) as [v [_ [_ [Hv [_ [_ [Hc _]]]]]]].
  exists v. auto.
Qed.

End Example.

Lemma pow_cr_accurate (x : float) (k : Z) : pow_faithful pow_cr x k.
Proof. right. left. reflexivity. Qed.

Lemma best_and_worst_case_witness :
  exists (v : float) (best worst : Adjusted),
    npv pow_cr example_inputs = Ok v
    /\ scenario_financials pow_cr example_inputs (changes BestCase (fun _ => 0%Z)) = Ok best
    /\ scenario_financials pow_cr example_inputs (changes WorstCase (fun _ => 0%Z)) = Ok worst
    /\ (v <? adj_npv best) = true
    /\ (adj_npv worst <? v) = true.
Proof.
  exact (best_and_worst_case pow_cr (fun k _ => pow_cr_accurate _ k)).
Defined.

Lemma example_figures_witness :
  revenue example_inputs = 50000
  /\ ebit example_inputs = 25000
  /\ tax_paid example_inputs = 5000
  /\ net_income example_inputs = 20000
  /\ exists v : float,
       npv pow_cr example_inputs = Ok v
       /\ rounds_to_cents v (of_int 5581574 / of_int 100) = true.
Proof.
  exact (example_figures pow_cr (fun k _ => pow_cr_accurate _ k)).
Defined.

(** C8, the counterexample. The example's npv lies between 55815 and
    55816 and does not show as 35815.74. *)
Lemma example_npv_not_35815 :
  exists v : float,
    npv pow_cr example_inputs = Ok v
    /\ (of_int 55815 <? v) = true
    /\ (v <? of_int 55816) = true
    /\ rounds_to_cents v (of_int 3581574 / of_int 100) = false.
Proof.
  destruct (npv pow_cr example_inputs) as [v|e] eqn:E;
    [|vm_compute in E; discriminate E].
  exists v. vm_compute in E. injection E as <-. repeat split.
Qed.

(** * The Custom Scenario *)

Lemma adjusted_value_eq (i : Inputs) (changes : factor -> Z) (g : factor) :
  adjusted_value i changes g = base_value i g * (1 + int_truediv (changes g) 100).
Proof. destruct g; reflexivity. Qed.

(** A zero times any number is a zero or no number: never below zero. *)
Lemma zero_mul_not_negative (x f : float) : (x =? 0) = true -> (x * f <? 0) = false.
Proof.
  rewrite eqb_spec, ltb_spec, mul_spec, Prim2SF_zero. intro Hx.
  destruct (Prim2SF x) as [[|]|[|]| |[|] mx ex]; try discriminate Hx;
    destruct (Prim2SF f) as [[|]|[|]| |[|] mf ef]; reflexivity.
Qed.

(** A delta below -100 turns every base value from the smallest normal
    number up into a negative adjusted value. *)
Lemma adjusted_value_negative (i : Inputs) (changes : factor -> Z) (g : factor) :
  widget_int (changes g) -> (changes g < -100)%Z ->
  (0x1p-1022 <=? base_value i g) = true ->
  (adjusted_value i changes g <? 0) = true.
Proof.
  unfold widget_int. intros Hw Hd Hb. rewrite adjusted_value_eq.
  apply mul_negative; [exact Hb|]. apply factor_negative. lia.
Qed.

Section Custom.

Variable pow : float -> Z -> float.

(** C10, as amended. The Custom Scenario deltas are any ints the four
    number inputs return, with no bound of the script's own.  For every
    valid input whose base NPV is there (the script has passed line 42
    without an OverflowError), and every such delta vector, the scenario
    computation returns a result, computed from the four adjusted values
    without a check; a delta below -100 makes the adjusted value of its
    factor negative, for the sales units always and for an amount from the
    smallest normal number up, while the adjusted value of a zero amount
    is never negative. *)
Theorem custom_scenario_total (i : Inputs) (custom : factor -> Z) (v : float) :
  valid_inputs i ->
  (forall g : factor, widget_int (custom g)) ->
  npv pow i = Ok v ->
  (exists a : Adjusted,
      scenario_financials pow i (changes CustomScenario custom) = Ok a
      /\ adj_revenue a = adjusted_value i custom Sales * adjusted_value i custom Price
      /\ adj_ebit a
         = adj_revenue a - adjusted_value i custom Sales * adjusted_value i custom VariableCost
           - adjusted_value i custom FixedCost
      /\ adj_net_income a
         = (if 0 <? adj_ebit a then adj_ebit a * (1 - int_truediv (tax_rate i) 100)
            else adj_ebit a)
      /\ List.length (adj_discounted_cash_flows a) = Z.to_nat (years i)
      /\ adj_npv a = sum (adj_discounted_cash_flows a) - initial_investment i)
  /\ (forall g : factor,
        (custom g < -100)%Z ->
        (0x1p-1022 <=? base_value i g) = true ->
        (adjusted_value i custom g <? 0) = true)
  /\ ((custom Sales < -100)%Z -> (adjusted_value i custom Sales <? 0) = true)
  /\ (forall g : factor,
        (base_value i g =? 0) = true -> (adjusted_value i custom g <? 0) = false).
Proof.
  intros Hi Hw Hv. split; [|split; [|split]].
  - destruct (recalculate_total pow i v (adjusted_value i custom Sales)
                (adjusted_value i custom Price) (adjusted_value i custom VariableCost)
                (adjusted_value i custom FixedCost) Hv) as [[a Ha] _].
    exists a. split; [exact Ha|].
    apply recalculate_Ok in Ha. destruct Ha as [dcf [Hd ->]].
    cbn [adj_revenue adj_ebit adj_net_income adj_discounted_cash_flows adj_npv].
    repeat split.
    apply discount_float_Ok in Hd. destruct Hd as [Hl _].
    rewrite Hl. apply repeat_length.
  - intros g Hd Hb. apply adjusted_value_negative; auto.
  - intro Hd. apply adjusted_value_negative; auto.
    apply of_int_normal. destruct Hi as [Hs _ _ _ _ _ _ _].
    change (2 ^ 53 - 1)%Z with 9007199254740991%Z in Hs.
    change (2 ^ 53)%Z with 9007199254740992%Z. lia.
  - intros g Hz. rewrite adjusted_value_eq. apply zero_mul_not_negative. exact Hz.
Qed.

End Custom.

Lemma custom_scenario_total_witness :
  valid_inputs example_inputs
  /\ (forall g : factor, widget_int ((fun _ => -150)%Z g))
  /\ exists a : Adjusted,
       scenario_financials pow_cr example_inputs
         (changes CustomScenario (fun _ => -150)%Z) = Ok a
       /\ (adjusted_value example_inputs (fun _ => -150)%Z Sales <? 0) = true.
Proof.
  assert (Hw : forall g : factor, widget_int ((fun _ => -150)%Z g))
    by (intro g; unfold widget_int; cbn; lia).
  split; [exact example_inputs_valid|]. split; [exact Hw|].
  destruct (npv pow_cr example_inputs) as [v|e] eqn:Hv;
    [|vm_compute in Hv; discriminate Hv].
  destruct (custom_scenario_total pow_cr example_inputs (fun _ => -150)%Z v
              example_inputs_valid Hw Hv) as [[a [Ha _]] [_ [Hneg _]]].
  exists a. split; [exact Ha|]. apply Hneg. reflexivity.
Defined.

Lemma long_horizon_scenario (changes : factor -> Z) (a : Adjusted) :
  scenario_financials pow_cr long_horizon_inputs changes = Ok a -> False.
Proof. unfold scenario_financials. cbv zeta. apply long_horizon_recalculate. Qed.

(** C10, the counterexample. On [zero_npv_inputs], a valid input whose
    fixed cost is 0.0, a delta of -150 makes the adjusted fixed cost -0.0,
    which is not negative; and on [long_horizon_inputs], a valid input, the
    scenario computation produces no result for the delta vector of four
    times -150: the power of line 194 raises OverflowError in the last
    year. *)
Lemma custom_scenario_not_total :
  valid_inputs zero_npv_inputs
  /\ adjusted_value zero_npv_inputs (fun _ => -150)%Z FixedCost = opp 0
  /\ (adjusted_value zero_npv_inputs (fun _ => -150)%Z FixedCost <? 0) = false
  /\ valid_inputs long_horizon_inputs
  /\ exists e : exn,
       scenario_financials pow_cr long_horizon_inputs
         (changes CustomScenario (fun _ => -150)%Z) = Raise e.
Proof.
  split; [exact zero_npv_inputs_valid|]. split; [reflexivity|]. split; [reflexivity|].
  split; [exact long_horizon_inputs_valid|].
  destruct (scenario_financials pow_cr long_horizon_inputs
              (changes CustomScenario (fun _ => -150)%Z)) as [a|e] eqn:E;
    [exfalso|exists e; reflexivity].
  exact (long_horizon_scenario _ a E).
Qed.

(** * The tables *)

Lemma length_range_from (a b : Z) : List.length (range_from a b) = Z.to_nat (b - a).
Proof. unfold range_from. rewrite length_map, length_seq. reflexivity. Qed.

Lemma nth_error_range_from (a b : Z) (k : nat) :
  (k < Z.to_nat (b - a))%nat -> nth_error (range_from a b) k = Some (a + Z.of_nat k)%Z.
Proof.
  intro Hk. unfold range_from.
  rewrite nth_error_map, nth_error_seq.
  destruct (Nat.ltb_spec k (Z.to_nat (b - a))) as [_|H]; [reflexivity|lia].
Qed.

(** The frame of lines 56-60 is built exactly when the discounted flows are
    as many as the years. *)
Lemma df_npv_Ok (i : Inputs) (dcf : list float) :
  df_npv i dcf
  = if Nat.eqb (List.length dcf) (Z.to_nat (years i))
    then Ok [("Year"%string, Ints (range_from 1 (years i + 1)));
             ("Cash Flow"%string, Values (cash_flows i));
             ("Discounted Cash Flow"%string, Values dcf)]
    else Raise ValueError.
Proof.
  unfold df_npv, DataFrame. cbn [dict_set String.eqb Ascii.eqb Bool.eqb].
  cbn [forallb snd column_length].
  rewrite length_range_from. unfold cash_flows. rewrite length_map, length_range.
  replace (years i + 1 - 1)%Z with (years i) by lia.
  rewrite Nat.eqb_refl. cbn [andb].
  destruct (Nat.eqb (List.length dcf) (Z.to_nat (years i))); reflexivity.
Qed.

Lemma scenario_data_Ok (i : Inputs) (npv : float) (a : Adjusted) (s : scenario) :
  exists d, scenario_data i npv a s = Ok d.
Proof. destruct s; eexists; reflexivity. Qed.

Section Details.

Variable pow : float -> Z -> float.

(** X1. For every valid input the table of the NPV details (lines 56-60)
    is built whenever the discounting returns, with no ValueError for
    columns of different lengths: it has one row per year, and row k holds
    the year k + 1, the net income, and the net income divided by
    (1 + discount_rate) ** (k + 1). *)
Theorem npv_details_rows (i : Inputs) (dcf : list float) :
  valid_inputs i ->
  discounted_cash_flows pow i = Ok dcf ->
  df_npv i dcf
  = Ok [("Year"%string, Ints (range_from 1 (years i + 1)));
        ("Cash Flow"%string, Values (cash_flows i));
        ("Discounted Cash Flow"%string, Values dcf)]
  /\ List.length (range_from 1 (years i + 1)) = Z.to_nat (years i)
  /\ List.length (cash_flows i) = Z.to_nat (years i)
  /\ List.length dcf = Z.to_nat (years i)
  /\ forall k : nat, (k < Z.to_nat (years i))%nat ->
       nth_error (range_from 1 (years i + 1)) k = Some (Z.of_nat k + 1)%Z
       /\ nth_error (cash_flows i) k = Some (net_income i)
       /\ exists p, float_pow pow (1 + discount_rate i) (Z.of_nat k + 1) = Ok p
                    /\ nth_error dcf k = Some (net_income i / p).
Proof.
  intros _ Hd. apply discounted_cash_flows_Ok in Hd. destruct Hd as [Hlen H].
  rewrite df_npv_Ok, Hlen, Nat.eqb_refl.
  split; [reflexivity|]. split; [rewrite length_range_from; f_equal; lia|].
  split; [unfold cash_flows; rewrite length_map; apply length_range|].
  split; [reflexivity|].
  intros k Hk. destruct (H k Hk) as [p [Hp [_ [Hc Hq]]]].
  split; [|split; [exact Hc|exists p; auto]].
  rewrite nth_error_range_from by lia. f_equal. lia.
Qed.

End Details.

Lemma npv_details_rows_witness :
  valid_inputs example_inputs
  /\ exists (dcf : list float) (d : frame),
       discounted_cash_flows pow_cr example_inputs = Ok dcf
       /\ df_npv example_inputs dcf = Ok d
       /\ rows d = 5%nat.
Proof.
  split; [exact example_inputs_valid|].
  destruct (discounted_cash_flows pow_cr example_inputs) as [dcf|e] eqn:E;
    [|vm_compute in E; discriminate E].
  destruct (npv_details_rows pow_cr example_inputs dcf example_inputs_valid E)
    as [Hd [Hy _]].
  exists dcf. eexists. split; [reflexivity|]. split; [exact Hd|exact Hy].
Defined.

(** X2. The comparison table of lines 211-215 is always built and has
    four rows.  For the Best Case, Worst Case and Custom scenarios it has
    the columns Metric, Base Case and the scenario's own, and the bar chart
    gets eight bars.  For the Base Case the scenario's key repeats the key
    "Base Case": the table has the two columns Metric and Base Case only,
    the Base Case column holds the recomputed values and not the base
    values, and the chart gets four bars. *)
Theorem scenario_data_columns (i : Inputs) (npv : float) (a : Adjusted) (s : scenario) :
  let base := [revenue i; ebit i; net_income i; npv] in
  let adjusted := [adj_revenue a; adj_ebit a; adj_net_income a; adj_npv a] in
  let bars (name : string) (values : list float) :=
    map (fun mv => (fst mv, name, snd mv)) (combine metrics values) in
  exists d : frame,
    scenario_data i npv a s = Ok d
    /\ rows d = 4%nat
    /\ match s with
       | BaseCase =>
           d = [("Metric"%string, Labels metrics); ("Base Case"%string, Values adjusted)]
           /\ melt "Metric" d = bars "Base Case"%string adjusted
       | _ =>
           d = [("Metric"%string, Labels metrics); ("Base Case"%string, Values base);
                (scenario_name s, Values adjusted)]
           /\ melt "Metric" d
              = (bars "Base Case"%string base ++ bars (scenario_name s) adjusted)%list
       end.
Proof.
  destruct s; eexists; (split; [reflexivity|]); split; try reflexivity;
    split; reflexivity.
Qed.

(** * The script as a whole *)

Section Whole.

Variable pow : float -> Z -> float.

Lemma sensitivity_results_length (i : Inputs) (R N : Z) (rows : list SensitivityRow) :
  In R sensitivity_range_values -> In N sensitivity_steps_values ->
  sensitivity_results pow i R N = Ok rows ->
  List.length rows = (4 * Z.to_nat N)%nat.
Proof.
  intros HR HN Hrows.
  destruct (slider_grid R N HR HN) as [Hg [Hlen _]].
  apply (sensitivity_results_Ok pow i R N _ rows Hg) in Hrows.
  destruct Hrows as [groups [Hgroups ->]].
  destruct (sweep_groups_uniform pow i _ _ Hgroups) as [H4 Hu]. rewrite Hlen in Hu.
  rewrite (length_concat_uniform _ _ Hu), H4. reflexivity.
Qed.

Lemma scenario_financials_total (i : Inputs) (changes : factor -> Z) (v : float) :
  npv pow i = Ok v -> exists a, scenario_financials pow i changes = Ok a.
Proof.
  intro Hv. unfold scenario_financials.
  apply (recalculate_total pow i v _ _ _ _ Hv).
Qed.

(** X3. For every valid input and every setting of the sliders, the
    scenario radio and the custom deltas, the whole script, tables
    included, returns exactly when the discounting of the base cash flows
    (line 42) returns; an exception of that line is the only one the script
    can raise.  When it returns, the sensitivity frame is not empty, so the
    line chart is drawn. *)
Theorem script_fails_only_in_discounting (i : Inputs) (R N : Z) (s : scenario)
  (custom : factor -> Z) :
  valid_inputs i ->
  In R sensitivity_range_values -> In N sensitivity_steps_values ->
  (forall dcf : list float,
      discounted_cash_flows pow i = Ok dcf ->
      exists report : Report,
        script pow i R N s custom = Ok report
        /\ app pow i R N s custom = Ok (report_page report)
        /\ page_npv (report_page report) = sum dcf - initial_investment i
        /\ report_status report = npv_status (sum dcf - initial_investment i)
        /\ report_sensitivity_chart report = true)
  /\ (forall e : exn,
        discounted_cash_flows pow i = Raise e ->
        script pow i R N s custom = Raise e /\ app pow i R N s custom = Raise e).
Proof.
  intros _ HR HN. split.
  - intros dcf Hd.
    assert (Hv : npv pow i = Ok (sum dcf - initial_investment i))
      by (unfold npv; rewrite Hd; reflexivity).
    destruct (slider_grid R N HR HN) as [Hg _].
    destruct (sensitivity_results_total pow i R N _ _ Hg Hv) as [rows Hrows].
    destruct (scenario_financials_total i (changes s custom) _ Hv) as [a Ha].
    destruct (scenario_data_Ok i (sum dcf - initial_investment i) a s) as [d Hdata].
    pose proof (sensitivity_results_length i R N rows HR HN Hrows) as Hlen.
    pose proof (proj1 (discounted_cash_flows_Ok pow i dcf) Hd) as [Hl _].
    unfold script, app. rewrite Hv, Hd. cbn [bind].
    rewrite df_npv_Ok, Hl, Nat.eqb_refl. cbn [bind].
    rewrite Hrows, Ha. cbn [bind].
    rewrite profitability_delta_eq.
    destruct (sum dcf - initial_investment i =? 0); cbn [bind]; rewrite Hdata;
      cbn [bind]; eexists; (split; [reflexivity|]); cbn;
      (split; [reflexivity|]); (split; [reflexivity|]); (split; [reflexivity|]);
      (destruct rows; [cbn in Hlen|reflexivity]);
      unfold sensitivity_steps_values in HN; cbn in HN;
      repeat (destruct HN as [<-|HN]; [discriminate Hlen|]); contradiction.
  - intros e Hd. unfold script, app, npv. rewrite Hd. split; reflexivity.
Qed.

(** X4. One row of the sweep is a Custom Scenario with a single delta.
    Once the base NPV is there, for the row of factor f at a whole-number
    change of d percent, d an int of a number input, and the Custom
    Scenario whose delta is d for f and 0 for the other three factors: the
    four adjusted values are the same, and the row's NPV is the sum, from
    left to right, of the scenario's discounted cash flows, minus the
    investment. *)
Theorem sweep_row_is_custom_scenario (i : Inputs) (f : factor) (d : Z) (v : float) :
  widget_int d ->
  npv pow i = Ok v ->
  let custom := fun g : factor => if factor_eqb f g then d else 0%Z in
  (forall g : factor, swept_value i f (of_int d) g = adjusted_value i custom g)
  /\ exists a : Adjusted,
       scenario_financials pow i (changes CustomScenario custom) = Ok a
       /\ sensitivity_row pow i f (of_int d)
          = Ok {| Factor := f; Change := of_int d;
                  NPV := sum (adj_discounted_cash_flows a) - initial_investment i |}.
Proof.
  intros _ Hv custom.
  assert (Hsame : forall g : factor,
            swept_value i f (of_int d) g = adjusted_value i custom g).
  { intro g. unfold swept_value, custom. rewrite adjusted_value_eq.
    destruct (factor_eqb f g); [reflexivity|].
    change (1 + int_truediv 0 100) with 1. rewrite mul_one_r. reflexivity. }
  split; [exact Hsame|].
  destruct (scenario_financials_total i (changes CustomScenario custom) v Hv) as [a Ha].
  exists a. split; [exact Ha|].
  apply sensitivity_row_Ok. exists a. split.
  - apply recalculate_np_float. rewrite <- Ha, !Hsame. reflexivity.
  - apply recalculate_Ok in Ha. destruct Ha as [dcf [_ ->]]. reflexivity.
Qed.

(** X5. With the range slider at 0 the sweep has no spread: for every
    valid input whose base NPV is there and every number of steps N, all
    4 * N rows are at change 0.0 and carry one and the same NPV, the one
    recomputed from the four unchanged base values (whose revenue and ebit
    are the base revenue and ebit). *)
Theorem sweep_without_range (i : Inputs) (N : Z) (v : float) :
  valid_inputs i ->
  In N sensitivity_steps_values ->
  npv pow i = Ok v ->
  exists (rows : list SensitivityRow) (a : Adjusted),
    sensitivity_results pow i 0 N = Ok rows
    /\ recalculate pow np_truediv i (of_int (sales_units i)) (price_per_unit i)
         (variable_cost_per_unit i) (fixed_cost i) = Ok a
    /\ adj_revenue a = revenue i
    /\ adj_ebit a = ebit i
    /\ List.length rows = (4 * Z.to_nat N)%nat
    /\ forall row : SensitivityRow,
         In row rows -> Change row = 0 /\ NPV row = adj_npv a.
Proof.
  intros _ HN Hv.
  assert (HR : In 0%Z sensitivity_range_values) by (left; reflexivity).
  destruct (slider_grid 0 N HR HN) as [Hg _].
  assert (Hzero : forall c, In c (even_grid 0 N) -> c = 0).
  { unfold sensitivity_steps_values in HN. cbn in HN.
    repeat (destruct HN as [<-|HN];
            [intros c Hc; vm_compute in Hc; intuition congruence|]).
    contradiction. }
  destruct (sensitivity_results_total pow i 0 N _ v Hg Hv) as [rows Hrows].
  destruct (recalculate_total pow i v (of_int (sales_units i)) (price_per_unit i)
              (variable_cost_per_unit i) (fixed_cost i) Hv) as [_ [a Ha]].
  exists rows, a. split; [exact Hrows|]. split; [exact Ha|].
  split; [|split].
  - apply recalculate_Ok in Ha. destruct Ha as [dcf [_ ->]]. reflexivity.
  - apply recalculate_Ok in Ha. destruct Ha as [dcf [_ ->]]. reflexivity.
  - split; [apply (sensitivity_results_length i 0 N rows HR HN Hrows)|].
    apply (sensitivity_results_Ok pow i 0 N _ rows Hg) in Hrows.
    destruct Hrows as [groups [Hgroups ->]].
    intros row Hin. apply in_concat in Hin. destruct Hin as [group [Hgroup Hrow]].
    destruct (Forall2_In_r _ _ _ Hgroups group Hgroup) as [f [_ Hf]].
    destruct (Forall2_In_r _ _ _ Hf row Hrow) as [c [Hc Hr]].
    apply sensitivity_row_Ok in Hr. destruct Hr as [a' [Ha' ->]].
    cbn [Change NPV]. rewrite (Hzero c Hc) in *. split; [reflexivity|].
    rewrite !(swept_value_zero i f 0 _ eq_refl) in Ha'. cbn [base_value] in Ha'.
    congruence.
Qed.

End Whole.

Lemma script_fails_only_in_discounting_witness :
  valid_inputs example_inputs
  /\ In 20%Z sensitivity_range_values /\ In 5%Z sensitivity_steps_values
  /\ exists report : Report,
       script pow_cr example_inputs 20 5 BestCase (fun _ => 0%Z) = Ok report
       /\ report_sensitivity_chart report = true.
Proof.
  assert (HR : In 20%Z sensitivity_range_values) by (cbn; auto 10).
  assert (HN : In 5%Z sensitivity_steps_values) by (cbn; auto).
  split; [exact example_inputs_valid|]. split; [exact HR|]. split; [exact HN|].
  destruct (script_fails_only_in_discounting pow_cr example_inputs 20 5 BestCase
              (fun _ => 0%Z) example_inputs_valid HR HN) as [Hok _].
  destruct (discounted_cash_flows pow_cr example_inputs) as [dcf|e] eqn:E;
    [|vm_compute in E; discriminate E].
  destruct (Hok dcf eq_refl) as [report [Hs [_ [_ [_ Hc]]]]].
  exists report. split; [exact Hs|exact Hc].
Defined.

Lemma sweep_row_is_custom_scenario_witness :
  widget_int 10
  /\ exists (v : float) (a : Adjusted),
       npv pow_cr example_inputs = Ok v
       /\ sensitivity_row pow_cr example_inputs Price (of_int 10)
          = Ok {| Factor := Price; Change := of_int 10;
                  NPV := sum (adj_discounted_cash_flows a)
                         - initial_investment example_inputs |}.
Proof.
  assert (Hw : widget_int 10) by (unfold widget_int; lia).
  split; [exact Hw|].
  destruct (npv pow_cr example_inputs) as [v|e] eqn:E;
    [|vm_compute in E; discriminate E].
  destruct (sweep_row_is_custom_scenario pow_cr example_inputs Price 10 v Hw E)
    as [_ [a [_ Ha]]].
  exists v, a. split; [reflexivity|exact Ha].
Defined.

Lemma sweep_without_range_witness :
  valid_inputs example_inputs /\ In 5%Z sensitivity_steps_values
  /\ exists (v : float) (rows : list SensitivityRow),
       npv pow_cr example_inputs = Ok v
       /\ sensitivity_results pow_cr example_inputs 0 5 = Ok rows
       /\ List.length rows = 20%nat.
Proof.
  assert (HN : In 5%Z sensitivity_steps_values) by (cbn; auto).
  split; [exact example_inputs_valid|]. split; [exact HN|].
  destruct (npv pow_cr example_inputs) as [v|e] eqn:E;
    [|vm_compute in E; discriminate E].
  destruct (sweep_without_range pow_cr example_inputs 5 v example_inputs_valid HN E)
    as [rows [a [Hrows [_ [_ [_ [Hlen _]]]]]]].
  exists v, rows. split; [reflexivity|]. split; [exact Hrows|exact Hlen].
Defined.

(** * Differences and order

    A difference of two binary64 numbers is above zero exactly when the
    first is above the second: a difference is rounded from an int multiple
    of the smaller unit, which is never rounded to a zero. *)

Section Difference.

#[local] Open Scope Z_scope.

Lemma shl_align_spec (m : positive) (e e' : Z) :
  e' <= e ->
  snd (shl_align m e e') = e'
  /\ Zpos (fst (shl_align m e e')) = Zpos m * 2 ^ (e - e').
Proof.
  intro H. unfold shl_align. destruct (e' - e) as [|d|d] eqn:E; try lia; cbn [fst snd].
  - replace (e - e') with 0 by lia. lia.
  - split; [reflexivity|]. unfold shift_pos. rewrite pos_iter_xO. f_equal. f_equal. lia.
Qed.

(** The sign of a normalized int. *)
Lemma binary_normalize_sign (d e : Z) :
  -1074 <= e ->
  SFltb (S754_zero false) (binary_normalize prec emax d e false) = (0 <? d)
  /\ SFleb (S754_zero false) (binary_normalize prec emax d e false) = (0 <=? d).
Proof.
  intro He. destruct d as [|p|p]; cbn [binary_normalize]; [split; reflexivity| |].
  - pose proof (Z.log2_nonneg (Zpos p)) as Hn.
    destruct (binary_round_mag false p e) as [H|[m' [e' [H _]]]]; [lia| |];
      rewrite H; split; reflexivity.
  - pose proof (Z.log2_nonneg (Zpos p)) as Hn.
    destruct (binary_round_mag true p e) as [H|[m' [e' [H _]]]]; [lia| |];
      rewrite H; split; reflexivity.
Qed.

(** Of two finite positive numbers with different exponents, the one with
    the larger exponent has a full mantissa and is the larger. *)
Lemma aligned_lt (m1 m2 : positive) (e1 e2 : Z) :
  bounded prec emax m1 e1 = true -> bounded prec emax m2 e2 = true ->
  e1 < e2 ->
  Zpos m1 < Zpos m2 * 2 ^ (e2 - e1).
Proof.
  intros H1 H2 He. apply bounded_facts in H1, H2.
  destruct H1 as [He1 [Hd1 _]]. destruct H2 as [He2 [_ Hd2]].
  assert (Hm1 : Zpos m1 < 2 ^ 53).
  { apply Z.log2_lt_pow2; lia. }
  assert (Hm2 : 2 ^ 52 <= Zpos m2).
  { replace 52 with (Z.log2 (Zpos m2)) by lia. apply Z.log2_spec. lia. }
  assert (Hp : 2 ^ 1 <= 2 ^ (e2 - e1)) by (apply Z.pow_le_mono_r; lia).
  change (2 ^ 53) with 9007199254740992 in Hm1.
  change (2 ^ 52) with 4503599627370496 in Hm2.
  change (2 ^ 1) with 2 in Hp.
  clear - Hm1 Hm2 Hp. nia.
Qed.

Lemma SFsub_finite_sign (sx sy : bool) (mx my : positive) (ex ey : Z) :
  bounded prec emax mx ex = true -> bounded prec emax my ey = true ->
  let d := SFsub prec emax (S754_finite sx mx ex) (S754_finite sy my ey) in
  SFltb (S754_zero false) d = SFltb (S754_finite sy my ey) (S754_finite sx mx ex)
  /\ SFleb (S754_zero false) d = SFleb (S754_finite sy my ey) (S754_finite sx mx ex).
Proof.
  intros Hx Hy. cbv zeta. cbn [SFsub].
  pose proof (bounded_facts mx ex Hx) as [Hex _].
  pose proof (bounded_facts my ey Hy) as [Hey _].
  match goal with
  | |- context [binary_normalize _ _ ?d ?e _] =>
      destruct (binary_normalize_sign d e ltac:(lia)) as [Hlt Hle]
  end.
  rewrite Hlt, Hle. clear Hlt Hle.
  destruct (shl_align_spec mx ex (Z.min ex ey)) as [_ HX]; [lia|].
  destruct (shl_align_spec my ey (Z.min ex ey)) as [_ HY]; [lia|].
  set (X := Zpos (fst (shl_align mx ex (Z.min ex ey)))) in *.
  set (Y := Zpos (fst (shl_align my ey (Z.min ex ey)))) in *.
  assert (HXpos : 0 < X) by (unfold X; lia).
  assert (HYpos : 0 < Y) by (unfold Y; lia).
  unfold SFltb, SFleb. cbn [SFcompare].
  rewrite Pos.compare_cont_spec. unfold Pos.switch_Eq.
  assert (Hord : (ey < ex -> Y < X) /\ (ex < ey -> X < Y)
                 /\ (ey = ex -> X = Zpos mx /\ Y = Zpos my)).
  { split; [|split]; intro He.
    - rewrite HX, HY, Z.min_r by lia. replace (ey - ey) with 0 by lia.
      rewrite Z.mul_1_r. apply aligned_lt; assumption.
    - rewrite HX, HY, Z.min_l by lia. replace (ex - ex) with 0 by lia.
      rewrite Z.mul_1_r. apply aligned_lt; assumption.
    - rewrite HX, HY. subst ey. rewrite Z.min_id, Z.sub_diag. lia. }
  destruct Hord as [Hlt [Hgt Heq]].
  clearbody X Y. clear HX HY Hx Hy.
  destruct sx, sy; cbn [cond_Zopp];
    destruct (Z.compare_spec ey ex) as [E|E|E];
    try (destruct (Heq E) as [-> ->]; destruct (Pos.compare_spec my mx) as [P|P|P]);
    cbn [CompOpp]; try (specialize (Hlt E)); try (specialize (Hgt E));
    split;
    first [apply Z.ltb_lt; lia | apply Z.ltb_ge; lia
          | apply Z.leb_le; lia | apply Z.leb_gt; lia].
Qed.

End Difference.

(** [x - y] is above zero exactly when [x] is above [y], for all binary64
    [x] and [y]. *)
Lemma sub_pos_ltb (x y : float) : (0 <? x - y) = (y <? x).
Proof.
  rewrite !ltb_spec, sub_spec, Prim2SF_zero.
  pose proof (Prim2SF_valid x) as Hx. pose proof (Prim2SF_valid y) as Hy.
  destruct (Prim2SF x) as [[|]|[|]| |sx mx ex];
    destruct (Prim2SF y) as [[|]|[|]| |sy my ey];
    try reflexivity; try (destruct sy; reflexivity); try (destruct sx; reflexivity).
  apply SFsub_finite_sign; assumption.
Qed.

(** [x - y] is at least zero exactly when [x] is at least [y], for every
    binary64 [x] and every finite [y]. *)
Lemma sub_nonneg_leb (x y : float) :
  is_finite y = true -> (0 <=? x - y) = (y <=? x).
Proof.
  unfold is_finite, is_nan, is_infinity.
  rewrite !leb_spec, !eqb_spec, sub_spec, abs_spec, Prim2SF_zero, Prim2SF_infinity.
  pose proof (Prim2SF_valid x) as Hx. pose proof (Prim2SF_valid y) as Hy.
  destruct (Prim2SF x) as [[|]|[|]| |sx mx ex];
    destruct (Prim2SF y) as [[|]|[|]| |sy my ey]; intro Hf;
    try discriminate Hf;
    try reflexivity; try (destruct sy; reflexivity); try (destruct sx; reflexivity).
  apply SFsub_finite_sign; assumption.
Qed.

Lemma amount_finite (x : float) : amount x -> is_finite x = true.
Proof.
  unfold amount, is_finite, is_nan, is_infinity.
  rewrite leb_spec, ltb_spec, !eqb_spec, abs_spec, Prim2SF_zero, Prim2SF_infinity.
  intros [H0 Hi].
  destruct (Prim2SF x) as [[|]|[|]| |[|] m e]; try discriminate H0;
    try discriminate Hi; try reflexivity.
  unfold SFeqb. cbn [SFabs SFcompare].
  rewrite Z.compare_refl, Pos.compare_cont_refl. reflexivity.
Qed.

Section Status.

Variable pow : float -> Z -> float.

(** X6. The label of the Profitability Change metric follows the sign of
    the NPV delta shown beside it: on every page the script returns, the
    label is "Improved" exactly when adj_npv - npv, as computed, is above
    zero, and "Worsened" otherwise. *)
Theorem label_follows_npv_delta (i : Inputs) (R N : Z) (s : scenario)
  (custom : factor -> Z) (page : Page) :
  app pow i R N s custom = Ok page ->
  page_label page
  = if 0 <? page_npv_delta page then "Improved"%string else "Worsened"%string.
Proof.
  intro H. apply app_Ok in H. destruct H as [_ [_ [_ [Hd [Hl _]]]]].
  rewrite Hl, Hd, sub_pos_ltb. reflexivity.
Qed.

(** X7. The NPV metric reads "Profitable" exactly when the discounted
    cash flows cover the investment: for every valid input whose
    discounting returns, the status of line 52, taken on the rounded
    difference, is "Profitable" if initial_investment <= sum of the
    discounted flows and "Not Profitable" otherwise. *)
Theorem profitable_when_covered (i : Inputs) (dcf : list float) :
  valid_inputs i ->
  discounted_cash_flows pow i = Ok dcf ->
  npv pow i = Ok (sum dcf - initial_investment i)
  /\ npv_status (sum dcf - initial_investment i)
     = if initial_investment i <=? sum dcf
       then "Profitable"%string else "Not Profitable"%string.
Proof.
  intros Hi Hd. split; [unfold npv; rewrite Hd; reflexivity|].
  unfold npv_status. rewrite sub_nonneg_leb; [reflexivity|].
  apply amount_finite. destruct Hi. assumption.
Qed.

End Status.

Lemma label_follows_npv_delta_witness :
  exists page : Page,
    app pow_cr example_inputs 20 5 BestCase (fun _ => 0%Z) = Ok page
    /\ page_label page
       = if 0 <? page_npv_delta page then "Improved"%string else "Worsened"%string.
Proof.
  destruct (app pow_cr example_inputs 20 5 BestCase (fun _ => 0%Z)) as [page|e] eqn:E;
    [|vm_compute in E; discriminate E].
  exists page. split; [reflexivity|].
  exact (label_follows_npv_delta pow_cr example_inputs 20 5 BestCase (fun _ => 0%Z) page E).
Defined.

Lemma profitable_when_covered_witness :
  valid_inputs example_inputs
  /\ exists dcf : list float,
       discounted_cash_flows pow_cr example_inputs = Ok dcf
       /\ npv_status (sum dcf - initial_investment example_inputs)
          = if initial_investment example_inputs <=? sum dcf
            then "Profitable"%string else "Not Profitable"%string.
Proof.
  split; [exact example_inputs_valid|].
  destruct (discounted_cash_flows pow_cr example_inputs) as [dcf|e] eqn:E;
    [|vm_compute in E; discriminate E].
  exists dcf. split; [reflexivity|].
  exact (proj2 (profitable_when_covered pow_cr example_inputs dcf example_inputs_valid E)).
Defined.

(** * Signs of the adjusted values *)

Lemma Prim2SF_two_pow_m7 : Prim2SF 0x1p-7 = S754_finite false 4503599627370496 (-59).
Proof. reflexivity. Qed.

(** The deltas -99 .. 255, one by one. *)
Lemma factor_small_positive_deltas :
  forallb (fun d : Z => 0x1p-7 <=? 1 + int_truediv d 100)
          (map (fun k : nat => (-99 + Z.of_nat k)%Z) (seq 0 355)) = true.
Proof. vm_compute. reflexivity. Qed.

Section Positive.

#[local] Open Scope Z_scope.

(** Adding 1.0 to a finite positive number gives an infinity or a finite
    positive number of magnitude at least 1. *)
Lemma SFadd_one_pos_mag (m : positive) (e : Z) :
  bounded prec emax m e = true ->
  let r := SFadd prec emax (S754_finite false 4503599627370496 (-52)) (S754_finite false m e) in
  r = S754_infinity false
  \/ exists (m' : positive) (e' : Z),
       r = S754_finite false m' e' /\ 1 <= Z.log2 (Zpos m') + 1 + e'.
Proof.
  intro Hb. apply bounded_facts in Hb. destruct Hb as [He _].
  cbv zeta. cbn [SFadd cond_Zopp].
  destruct (shl_align_spec 4503599627370496 (-52) (Z.min (-52) e)) as [_ H1]; [lia|].
  set (X := fst (shl_align 4503599627370496 (-52) (Z.min (-52) e))) in *.
  set (Y := fst (shl_align m e (Z.min (-52) e))).
  change (Zpos X + Zpos Y) with (Zpos (X + Y)). cbn [binary_normalize].
  assert (Hl : 53 + (-52 - Z.min (-52) e) <= Z.log2 (Zpos (X + Y)) + 1).
  { assert (52 + (-52 - Z.min (-52) e) <= Z.log2 (Zpos (X + Y))); [|lia].
    apply Z.log2_le_pow2; [lia|].
    rewrite Z.pow_add_r by lia. change (2 ^ 52) with 4503599627370496.
    rewrite Pos2Z.inj_add, H1. lia. }
  destruct (binary_round_mag false (X + Y) (Z.min (-52) e)) as [Hinf|[m' [e' [Hfin Hm']]]];
    [lia|left; exact Hinf|].
  right. exists m', e'. split; [exact Hfin|lia].
Qed.

End Positive.

(** A delta above -100 leaves the factor [1 + delta/100] positive: at
    least [2^-7]. *)
Lemma factor_positive (d : Z) :
  (-100 < d <= 2 ^ 53 - 1)%Z -> (0x1p-7 <=? 1 + int_truediv d 100) = true.
Proof.
  intro Hd. destruct (Z_le_gt_dec d 255) as [Hsmall|Hbig].
  - apply (proj1 (forallb_forall _ _) factor_small_positive_deltas).
    apply in_map_iff. exists (Z.to_nat (d + 99)). split; [lia|].
    apply in_seq. lia.
  - destruct (Prim2SF_of_int d) as [m [Hm [Hfull _]]]; [lia|].
    replace (d <? 0)%Z with false in Hm by (symmetry; apply Z.ltb_ge; lia).
    assert (Hl : (8 <= Z.log2 (Z.abs d))%Z).
    { apply Z.log2_le_pow2; [lia|]. change (2 ^ 8)%Z with 256%Z. lia. }
    pose proof (Prim2SF_valid (of_int d)) as Hv. rewrite Hm in Hv. cbn [valid_binary] in Hv.
    pose proof (Prim2SF_valid (int_truediv d 100)) as Hvq.
    pose proof (Prim2SF_valid (1 + int_truediv d 100)) as Hvs.
    rewrite leb_spec, Prim2SF_two_pow_m7. rewrite add_spec in Hvs |- *.
    unfold int_truediv in *. rewrite div_spec, Prim2SF_one in *.
    change (of_int 100) with 100 in *. rewrite Prim2SF_hundred, Hm in *.
    destruct (SFdiv_hundred_mag false m _ Hv ltac:(lia)) as [Hq|[mq [eq [Hq Hmq]]]];
      unfold SF64div in *; rewrite Hq in *; [reflexivity|].
    cbn [valid_binary] in Hvq.
    destruct (SFadd_one_pos_mag mq eq Hvq) as [Hs|[ms [es [Hs Hms]]]];
      unfold SF64add in *; rewrite Hs in *; [reflexivity|].
    cbn [valid_binary] in Hvs. apply bounded_facts in Hvs.
    unfold SFleb. cbn [SFcompare].
    replace (-59 ?= es)%Z with Lt by (symmetry; apply Z.compare_lt_iff; lia).
    reflexivity.
Qed.

Lemma SFleb_two_pow_m7_mag (mf : positive) (ef : Z) :
  bounded prec emax mf ef = true ->
  SFleb (S754_finite false 4503599627370496 (-59)) (S754_finite false mf ef) = true ->
  (-6 <= Z.log2 (Zpos mf) + 1 + ef)%Z.
Proof.
  intros Hvf Hf. apply bounded_facts in Hvf. apply SFleb_pos_pos in Hf.
  destruct Hf as [Hf|[Hf Hm]]; [lia|].
  assert (52 <= Z.log2 (Zpos mf))%Z; [|lia].
  apply Z.log2_le_pow2; [lia|]. change (2 ^ 52)%Z with 4503599627370496%Z. exact Hm.
Qed.

Lemma mul_positive (b f : float) :
  (0x1p-1022 <=? b) = true -> (0x1p-7 <=? f) = true -> (0 <? b * f) = true.
Proof.
  rewrite !leb_spec, ltb_spec, mul_spec, Prim2SF_zero, Prim2SF_min_normal,
    Prim2SF_two_pow_m7.
  pose proof (Prim2SF_valid b) as Hvb. pose proof (Prim2SF_valid f) as Hvf.
  destruct (Prim2SF b) as [sb|sb| |sb mb eb]; intro Hb;
    try discriminate Hb;
    destruct (Prim2SF f) as [sf|sf| |sf mf ef]; intro Hf;
    try discriminate Hf.
  - destruct sb; [discriminate Hb|]. destruct sf; [discriminate Hf|reflexivity].
  - destruct sb; [discriminate Hb|]. destruct sf; [discriminate Hf|reflexivity].
  - destruct sb; [discriminate Hb|]. destruct sf; [discriminate Hf|reflexivity].
  - destruct sb; [discriminate Hb|]. destruct sf; [discriminate Hf|].
    cbn [valid_binary] in Hvb, Hvf.
    pose proof (SFleb_min_normal_mag mb eb Hvb Hb) as Hmb.
    pose proof (SFleb_two_pow_m7_mag mf ef Hvf Hf) as Hmf.
    assert (Hmag : (-1074 < Z.log2 (Zpos mb) + 1 + eb + (Z.log2 (Zpos mf) + 1 + ef) - 1)%Z)
      by (clear Hb Hf Hvb Hvf; lia).
    pose proof (SFmul_mag false false mb mf eb ef Hmag) as H. cbv zeta in H.
    unfold SF64mul. destruct H as [H|[m' [e' H]]]; rewrite H; reflexivity.
Qed.

(** A finite number that is not negative, times [+0.0], is a zero. *)
Lemma amount_mul_zero (x : float) : amount x -> (x * 0 =? 0) = true.
Proof.
  unfold amount. rewrite leb_spec, ltb_spec, Prim2SF_zero, Prim2SF_infinity.
  intros [H0 Hinf]. rewrite eqb_spec, mul_spec, Prim2SF_zero.
  destruct (Prim2SF x) as [[|]|[|]| |[|] m e]; try discriminate H0;
    try discriminate Hinf; reflexivity.
Qed.

Lemma sales_units_normal (i : Inputs) :
  valid_inputs i -> (0x1p-1022 <=? of_int (sales_units i)) = true.
Proof.
  intro Hi. apply of_int_normal. destruct Hi as [Hs _ _ _ _ _ _ _].
  change (2 ^ 53 - 1)%Z with 9007199254740991%Z in Hs.
  change (2 ^ 53)%Z with 9007199254740992%Z. lia.
Qed.

Lemma base_value_amount (i : Inputs) (g : factor) : valid_inputs i -> amount (base_value i g).
Proof.
  intro Hi. pose proof (sales_units_normal i Hi) as Hn.
  destruct Hi as [Hs Hp Hvc Hfc _ _ _ _]. destruct g; cbn [base_value]; try assumption.
  change (2 ^ 53 - 1)%Z with 9007199254740991%Z in Hs.
  destruct (Prim2SF_of_int (sales_units i)) as [m [Hm _]];
    [change (2 ^ 53)%Z with 9007199254740992%Z; lia|].
  replace (sales_units i <? 0)%Z with false in Hm by (symmetry; apply Z.ltb_ge; lia).
  unfold amount. rewrite leb_spec, ltb_spec, Hm. split; reflexivity.
Qed.

(** X8. Where the sign of an adjusted value turns: for every valid input
    and all deltas of the four number inputs, a delta of exactly -100
    makes the adjusted value a zero, and a delta above -100 leaves the
    adjusted value of a base value from the smallest normal number up (the
    sales units always) above zero.  So do the deltas of the Base, Best and
    Worst Case. *)
Theorem adjusted_value_sign (i : Inputs) (custom : factor -> Z) :
  valid_inputs i ->
  (forall g : factor, widget_int (custom g)) ->
  (forall g : factor,
      (custom g = -100)%Z -> (adjusted_value i custom g =? 0) = true)
  /\ (forall g : factor,
        (-100 < custom g)%Z -> (0x1p-1022 <=? base_value i g) = true ->
        (0 <? adjusted_value i custom g) = true)
  /\ ((-100 < custom Sales)%Z -> (0 <? adjusted_value i custom Sales) = true)
  /\ (forall (s : scenario) (g : factor),
        s <> CustomScenario -> (0x1p-1022 <=? base_value i g) = true ->
        (0 <? adjusted_value i (changes s custom) g) = true).
Proof.
  unfold widget_int. intros Hi Hw.
  assert (Hpos : forall (c : factor -> Z) (g : factor),
            (-100 < c g <= 2 ^ 53 - 1)%Z -> (0x1p-1022 <=? base_value i g) = true ->
            (0 <? adjusted_value i c g) = true).
  { intros c g Hc Hb. rewrite adjusted_value_eq.
    apply mul_positive; [exact Hb|]. apply factor_positive. exact Hc. }
  split; [|split; [|split]].
  - intros g Hg. rewrite adjusted_value_eq, Hg.
    change (1 + int_truediv (-100) 100) with 0.
    apply amount_mul_zero. apply base_value_amount. exact Hi.
  - intros g Hd Hb. apply Hpos; [|exact Hb]. specialize (Hw g). lia.
  - intro Hd. apply Hpos; [specialize (Hw Sales); lia|].
    apply sales_units_normal. exact Hi.
  - intros s g Hs Hb. apply Hpos; [|exact Hb].
    destruct s; [| | |contradiction]; destruct g; cbn; lia.
Qed.

Lemma adjusted_value_sign_witness :
  valid_inputs example_inputs
  /\ (forall g : factor, widget_int ((fun _ => -100)%Z g))
  /\ (adjusted_value example_inputs (fun _ => -100)%Z Price =? 0) = true.
Proof.
  assert (Hw : forall g : factor, widget_int ((fun _ => -100)%Z g))
    by (intro g; unfold widget_int; cbn; lia).
  split; [exact example_inputs_valid|]. split; [exact Hw|].
  exact (proj1 (adjusted_value_sign example_inputs (fun _ => -100)%Z
                  example_inputs_valid Hw) Price eq_refl).
Defined.

(** * Tax *)

Lemma Prim2SF_half : Prim2SF 0.5 = S754_finite false 4503599627370496 (-53).
Proof. reflexivity. Qed.

(** A positive number other than the infinity, times [+0.0], is [+0.0]. *)
Lemma pos_mul_zero (x : float) :
  (0 <? x) = true -> (x =? infinity) = false -> x * 0 = 0.
Proof.
  rewrite ltb_spec, eqb_spec, Prim2SF_zero, Prim2SF_infinity. intros Hp Hi.
  apply Prim2SF_inj. rewrite mul_spec, Prim2SF_zero.
  destruct (Prim2SF x) as [[|]|[|]| |[|] m e]; try discriminate Hp;
    try discriminate Hi; reflexivity.
Qed.

Section Rounding.

#[local] Open Scope Z_scope.

Lemma shr_fexp_nonneg (m e : Z) (l : location) :
  0 <= m -> 0 <= shr_m (fst (shr_fexp prec emax m e l)).
Proof.
  intro Hm. unfold shr_fexp.
  destruct (shr_spec (shr_record_of_loc m l) e
              (fexp prec emax (Zdigits2 m + e) - e)) as [H _].
  { rewrite shr_record_of_loc_m. exact Hm. }
  rewrite H, shr_record_of_loc_m. apply Z.shiftr_nonneg. exact Hm.
Qed.

(** Rounding a mantissa that is not negative, with a positive sign, gives
    a zero, a finite number or an infinity: nothing below zero, no NaN. *)
Lemma binary_round_aux_nonneg (m e : Z) (l : location) :
  0 <= m -> SFleb (S754_zero false) (binary_round_aux prec emax false m e l) = true.
Proof.
  intro Hm. unfold binary_round_aux.
  pose proof (shr_fexp_nonneg m e l Hm) as H1.
  destruct (shr_fexp prec emax m e l) as [r1 e1]. cbn [fst] in H1.
  pose proof (round_nearest_even_bounds (shr_m r1) (loc_of_shr_record r1)) as H2.
  set (m2 := round_nearest_even (shr_m r1) (loc_of_shr_record r1)) in *.
  pose proof (shr_fexp_nonneg m2 e1 loc_Exact ltac:(lia)) as H3.
  destruct (shr_fexp prec emax m2 e1 loc_Exact) as [r3 e3]. cbn [fst] in H3.
  destruct (shr_m r3) as [|m3|m3]; [reflexivity| |lia].
  destruct (e3 <=? emax - prec); reflexivity.
Qed.

(** What a rounding returns, from above: the mantissa is shifted right by
    [n] places to the working exponent, then moved up by at most one unit;
    an exponent above the working one comes with a full mantissa. *)
Lemma binary_round_aux_upper (s : bool) (m e : Z) (l : location) :
  0 < m -> -1074 < Z.log2 m + 1 + e ->
  let n := Z.max 0 (fexp prec emax (Z.log2 m + 1 + e) - e) in
  exists (m3 : positive) (e3 : Z),
    e + n <= e3
    /\ Zpos m3 * 2 ^ (e3 - (e + n)) <= Z.shiftr m n + 1
    /\ (e + n < e3 -> Z.log2 (Zpos m3) = 52)
    /\ binary_round_aux prec emax s m e l
       = if e3 <=? emax - prec then S754_finite s m3 e3 else S754_infinity s.
Proof.
  intros Hm Hmag n. unfold binary_round_aux.
  pose proof (shr_fexp_mag m e l Hm Hmag (Zdigits2_log2 m Hm)) as [H1 [H1' _]].
  assert (Hs1 : shr_m (fst (shr_fexp prec emax m e l)) = Z.shiftr m n
                /\ snd (shr_fexp prec emax m e l) = e + n).
  { unfold shr_fexp. rewrite (Zdigits2_log2 m Hm).
    destruct (shr_spec (shr_record_of_loc m l) e
                (fexp prec emax (Z.log2 m + 1 + e) - e)) as [Ha Hb].
    { rewrite shr_record_of_loc_m. lia. }
    rewrite shr_record_of_loc_m in Ha. split; assumption. }
  destruct Hs1 as [Hs1 He1].
  destruct (shr_fexp prec emax m e l) as [r1 e1]. cbn [fst snd] in H1, H1', Hs1, He1.
  set (m2 := round_nearest_even (shr_m r1) (loc_of_shr_record r1)).
  pose proof (round_nearest_even_bounds (shr_m r1) (loc_of_shr_record r1)) as H2.
  fold m2 in H2.
  assert (Hl2 : Z.log2 (shr_m r1) <= Z.log2 m2) by (apply Z.log2_le_mono; lia).
  assert (Hm2 : 0 < m2) by lia.
  pose proof (shr_fexp_mag m2 e1 loc_Exact Hm2 ltac:(lia) (Zdigits2_log2 m2 Hm2))
    as [H3 [H3' H3'']].
  set (n3 := Z.max 0 (fexp prec emax (Z.log2 m2 + 1 + e1) - e1)).
  assert (Hs3 : shr_m (fst (shr_fexp prec emax m2 e1 loc_Exact)) = Z.shiftr m2 n3
                /\ snd (shr_fexp prec emax m2 e1 loc_Exact) = e1 + n3).
  { unfold shr_fexp. rewrite (Zdigits2_log2 m2 Hm2).
    destruct (shr_spec (shr_record_of_loc m2 loc_Exact) e1
                (fexp prec emax (Z.log2 m2 + 1 + e1) - e1)) as [Ha Hb].
    { rewrite shr_record_of_loc_m. lia. }
    rewrite shr_record_of_loc_m in Ha. split; assumption. }
  destruct Hs3 as [Hs3 He3].
  destruct (shr_fexp prec emax m2 e1 loc_Exact) as [r3 e3].
  cbn [fst snd] in H3, H3', H3'', Hs3, He3.
  destruct (shr_m r3) as [|m3|m3] eqn:Er3; try lia.
  exists m3, e3.
  assert (Hn3 : 0 <= n3) by (unfold n3; lia).
  split; [lia|]. split; [|split; [|reflexivity]].
  - replace (e3 - (e + n)) with n3 by lia.
    rewrite Hs3, Z.shiftr_div_pow2 by exact Hn3.
    apply Z.le_trans with m2; [|lia].
    rewrite Z.mul_comm. apply Z.mul_div_le. apply Z.pow_pos_nonneg; lia.
  - intro Hlt.
    assert (Hf : fexp prec emax (Z.log2 m2 + 1 + e1) = e3) by (unfold n3 in *; lia).
    assert (He1' : -1074 <= e1).
    { rewrite He1. unfold n, fexp, SpecFloat.emin.
      change prec with 53. change emax with 1024. lia. }
    unfold fexp, SpecFloat.emin in Hf. change prec with 53 in Hf.
    change emax with 1024 in Hf. lia.
Qed.

(** A normal number times a normal factor between 2^-7 and one half is
    below the number. *)
Lemma SFmul_lt_self (mx mq : positive) (ex eq : Z) :
  bounded prec emax mx ex = true ->
  Z.log2 (Zpos mx) = 52 ->
  Z.log2 (Zpos mq) = 52 ->
  -59 <= eq <= -53 -> Zpos mq <= 2 ^ (-1 - eq) ->
  SFltb (SFmul prec emax (S754_finite false mx ex) (S754_finite false mq eq))
        (S754_finite false mx ex) = true.
Proof.
  intros Hbx Hlx Hlq Heq Hmq. apply bounded_facts in Hbx. destruct Hbx as [Hex _].
  cbn [SFmul xorb]. rewrite Pos2Z.inj_mul.
  set (P := Zpos mx * Zpos mq). set (b := - eq).
  assert (Hb : 53 <= b <= 59) by (unfold b; lia).
  replace (ex + eq) with (ex - b) by (unfold b; lia).
  replace (-1 - eq) with (b - 1) in Hmq by (unfold b; lia).
  clearbody b. clear Heq.
  assert (Hmx : 2 ^ 52 <= Zpos mx < 2 ^ 53).
  { rewrite <- Hlx at 1. replace 53 with (Z.succ (Z.log2 (Zpos mx))) by lia.
    apply Z.log2_spec. lia. }
  assert (Hq : 2 ^ 52 <= Zpos mq < 2 ^ 53).
  { rewrite <- Hlq at 1. replace 53 with (Z.succ (Z.log2 (Zpos mq))) by lia.
    apply Z.log2_spec. lia. }
  set (W := 2 ^ (b - 1)) in *.
  assert (HW : 0 < W) by (apply Z.pow_pos_nonneg; lia).
  assert (HPpos : 0 < P) by (unfold P; lia).
  assert (HPle : P <= Zpos mx * W).
  { unfold P. apply Z.mul_le_mono_nonneg_l; [lia|exact Hmq]. }
  assert (HlP : 104 <= Z.log2 P <= 105).
  { split.
    - apply Z.log2_le_pow2; [exact HPpos|]. unfold P.
      change (2 ^ 104) with (2 ^ 52 * 2 ^ 52).
      apply Z.mul_le_mono_nonneg; lia.
    - assert (Z.log2 P < 106); [|lia].
      apply Z.log2_lt_pow2; [exact HPpos|]. unfold P.
      change (2 ^ 106) with (2 ^ 53 * 2 ^ 53).
      apply Z.mul_lt_mono_nonneg; lia. }
  destruct (binary_round_aux_upper false P (ex - b) loc_Exact HPpos ltac:(lia))
    as [m3 [e3 [He3 [Hval [Hfull Hres]]]]].
  set (n := Z.max 0 (fexp prec emax (Z.log2 P + 1 + (ex - b)) - (ex - b))) in *.
  assert (Hn : 0 <= n <= b).
  { unfold n, fexp, SpecFloat.emin. change prec with 53. change emax with 1024. lia. }
  clearbody n.
  set (j := b - n). set (k := e3 - (ex - b + n)) in *.
  assert (Hj : 0 <= j) by (unfold j; lia).
  assert (Hk : 0 <= k) by (unfold k; lia).
  assert (Hpn : 0 < 2 ^ n) by (apply Z.pow_pos_nonneg; lia).
  assert (Hkey : Z.shiftr P n + 1 < Zpos mx * 2 ^ j).
  { rewrite Z.shiftr_div_pow2 by lia.
    apply (Z.mul_lt_mono_pos_r (2 ^ n)); [exact Hpn|].
    rewrite <- Z.mul_assoc, <- Z.pow_add_r by lia.
    replace (j + n) with (1 + (b - 1)) by (unfold j; lia).
    rewrite Z.pow_add_r by lia. fold W. change (2 ^ 1) with 2.
    assert (Hdiv : P / 2 ^ n * 2 ^ n <= P).
    { rewrite Z.mul_comm. apply Z.mul_div_le. exact Hpn. }
    assert (Hnb : 2 ^ n <= 2 * W).
    { replace (2 * W) with (2 ^ (1 + (b - 1)))
        by (rewrite Z.pow_add_r by lia; reflexivity).
      apply Z.pow_le_mono_r; lia. }
    assert (Hmx3 : (Zpos mx + 2) * W < 2 * Zpos mx * W).
    { apply Z.mul_lt_mono_pos_r; [exact HW|].
      change (2 ^ 52) with 4503599627370496 in Hmx. lia. }
    rewrite Z.mul_add_distr_r, Z.mul_1_l.
    rewrite Z.mul_add_distr_r in Hmx3.
    replace (Zpos mx * (2 * W)) with (2 * Zpos mx * W) by ring.
    clear - Hdiv Hnb Hmx3 HPle. lia. }
  assert (Hkj : k <= j).
  { destruct (Z_le_gt_dec k j) as [H|H]; [exact H|exfalso].
    assert (Hl3 : Z.log2 (Zpos m3) = 52) by (apply Hfull; unfold k in *; lia).
    assert (Hm3 : 2 ^ 52 <= Zpos m3).
    { rewrite <- Hl3. apply Z.log2_spec. lia. }
    assert (Hpk : 2 ^ (j + 1) <= 2 ^ k) by (apply Z.pow_le_mono_r; lia).
    rewrite Z.pow_add_r in Hpk by lia. change (2 ^ 1) with 2 in Hpk.
    assert (Hpj : 0 < 2 ^ j) by (apply Z.pow_pos_nonneg; lia).
    assert (Hbig : 2 ^ 52 * (2 ^ j * 2) <= Zpos m3 * 2 ^ k).
    { apply Z.mul_le_mono_nonneg; lia. }
    assert (Hsmall : Zpos mx * 2 ^ j < 2 ^ 53 * 2 ^ j).
    { apply Z.mul_lt_mono_pos_r; lia. }
    change (2 ^ 53) with (2 ^ 52 * 2) in Hsmall.
    clear - Hbig Hsmall Hkey Hval. lia. }
  rewrite Hres.
  replace (e3 <=? emax - prec) with true
    by (symmetry; apply Z.leb_le; change (emax - prec) with 971; unfold k, j in *; lia).
  unfold SFltb. cbn [SFcompare]. rewrite Pos.compare_cont_spec. unfold Pos.switch_Eq.
  destruct (Z.compare_spec e3 ex) as [E|E|E]; [|reflexivity|unfold k, j in *; lia].
  assert (Hlt : Zpos m3 < Zpos mx).
  { assert (Hpj : 0 < 2 ^ j) by (apply Z.pow_pos_nonneg; lia).
    apply (Z.mul_lt_mono_pos_r (2 ^ j)); [exact Hpj|].
    replace k with j in Hval by (unfold k, j; lia). lia. }
  destruct (Pos.compare_spec m3 mx) as [C|C|C]; [subst; lia|reflexivity|lia].
Qed.

End Rounding.

(** The product of two numbers that are at least zero is at least zero,
    unless it is a zero times an infinity. *)
Lemma mul_nonneg (x y : float) :
  (0 <=? x) = true -> (0 <=? y) = true ->
  (x =? infinity) = false \/ (y =? 0) = false ->
  (y =? infinity) = false \/ (x =? 0) = false ->
  (0 <=? x * y) = true.
Proof.
  rewrite !leb_spec, !eqb_spec, mul_spec, Prim2SF_zero, Prim2SF_infinity.
  destruct (Prim2SF x) as [[|]|[|]| |[|] mx ex];
    destruct (Prim2SF y) as [[|]|[|]| |[|] my ey];
    intros Hx Hy H1 H2; try discriminate Hx; try discriminate Hy;
    try reflexivity;
    try (destruct H1 as [H1|H1]; discriminate H1);
    try (destruct H2 as [H2|H2]; discriminate H2).
  unfold SF64mul. cbn [SFmul xorb]. apply binary_round_aux_nonneg. lia.
Qed.

(** [x * q] is below [x] for a finite [x] from the smallest normal number
    up and a factor [q] from 2^-7 to one half. *)
Lemma mul_lt_self (x q : float) :
  (0x1p-1022 <=? x) = true -> (x <? infinity) = true ->
  (0x1p-7 <=? q) = true -> (q <=? 0.5) = true ->
  (x * q <? x) = true.
Proof.
  rewrite !leb_spec, !ltb_spec, mul_spec, Prim2SF_min_normal, Prim2SF_infinity,
    Prim2SF_two_pow_m7, Prim2SF_half.
  pose proof (Prim2SF_valid x) as Hvx. pose proof (Prim2SF_valid q) as Hvq.
  destruct (Prim2SF x) as [sx|sx| |sx mx ex]; intros Hx Hxi;
    try discriminate Hx; try (destruct sx; discriminate);
    destruct (Prim2SF q) as [sq|sq| |sq mq eq]; intros Hq Hqh;
    try discriminate Hq; try (destruct sq; discriminate).
  destruct sx; [discriminate Hx|]. destruct sq; [discriminate Hq|].
  cbn [valid_binary] in Hvx, Hvq.
  pose proof (bounded_facts mx ex Hvx) as [Hex [Hdx Hfx]].
  pose proof (bounded_facts mq eq Hvq) as [Heq [Hdq Hfq]].
  pose proof (SFleb_min_normal_mag mx ex Hvx Hx) as Hmagx.
  pose proof (SFleb_two_pow_m7_mag mq eq Hvq Hq) as Hmagq.
  apply SFleb_pos_pos in Hqh.
  assert (Hlx : (Z.log2 (Zpos mx) = 52)%Z).
  { apply SFleb_pos_pos in Hx. destruct Hx as [Hx|[Hx Hm]].
    - specialize (Hfx Hx). lia.
    - assert (52 <= Z.log2 (Zpos mx))%Z; [|lia].
      apply Z.log2_le_pow2; [lia|]. change (2 ^ 52)%Z with 4503599627370496%Z. exact Hm. }
  assert (Hlq : (Z.log2 (Zpos mq) = 52)%Z).
  { assert (Hne : (-1074 < eq)%Z) by lia. specialize (Hfq Hne). lia. }
  unfold SF64mul. apply SFmul_lt_self; try assumption; [lia|].
  destruct Hqh as [Hlt|[-> Hm]].
  - apply Z.le_trans with (2 ^ 53)%Z.
    + assert (Zpos mq < 2 ^ 53)%Z; [|lia]. apply Z.log2_lt_pow2; lia.
    + apply Z.pow_le_mono_r; lia.
  - exact Hm.
Qed.

(** A number from the smallest normal number up is above zero, and below
    the infinity it is not the infinity. *)
Lemma normal_pos (x : float) : (0x1p-1022 <=? x) = true -> (0 <? x) = true.
Proof.
  rewrite leb_spec, ltb_spec, Prim2SF_zero, Prim2SF_min_normal.
  destruct (Prim2SF x) as [[|]|[|]| |[|] m e]; intro H; try discriminate H; reflexivity.
Qed.

Lemma below_infinity (x : float) : (x <? infinity) = true -> (x =? infinity) = false.
Proof.
  rewrite ltb_spec, eqb_spec. unfold SFltb, SFeqb.
  destruct (SFcompare (Prim2SF x) (Prim2SF infinity)) as [[| |]|]; congruence.
Qed.

(** The tax rates of the slider, as fractions [q = tax_rate / 100]: none
    is negative or infinite; the rate 0 gives [+0.0], every other rate a
    fraction from 2^-7 to one half; and [1 - q] is at least 2^-7. *)
Lemma tax_fractions (t : Z) :
  (0 <= t <= 50)%Z ->
  (0 <=? int_truediv t 100) = true
  /\ (int_truediv t 100 =? infinity) = false
  /\ (0x1p-7 <=? 1 - int_truediv t 100) = true
  /\ (t <> 0%Z ->
      (int_truediv t 100 =? 0) = false
      /\ (0x1p-7 <=? int_truediv t 100) = true
      /\ (int_truediv t 100 <=? 0.5) = true).
Proof.
  intro Ht.
  assert (H : forallb (fun k : nat =>
                         let q := int_truediv (Z.of_nat k) 100 in
                         (0 <=? q) && negb (q =? infinity) && (0x1p-7 <=? 1 - q)
                         && (Nat.eqb k 0
                             || (negb (q =? 0) && (0x1p-7 <=? q) && (q <=? 0.5))))
                      (seq 0 51) = true) by (vm_compute; reflexivity).
  assert (Hin : In (Z.to_nat t) (seq 0 51)) by (apply in_seq; lia).
  apply (proj1 (forallb_forall _ _) H) in Hin. cbv zeta in Hin.
  rewrite Z2Nat.id in Hin by lia.
  apply andb_true_iff in Hin. destruct Hin as [Hin H4].
  apply andb_true_iff in Hin. destruct Hin as [Hin H3].
  apply andb_true_iff in Hin. destruct Hin as [H1 H2].
  apply negb_true_iff in H2.
  split; [exact H1|]. split; [exact H2|]. split; [exact H3|].
  intro Hne. apply orb_true_iff in H4. destruct H4 as [H4|H4].
  - apply Nat.eqb_eq in H4. lia.
  - apply andb_true_iff in H4. destruct H4 as [H4 H7].
    apply andb_true_iff in H4. destruct H4 as [H5 H6].
    apply negb_true_iff in H5. auto.
Qed.

(** X9. Tax is never negative: for every valid input the tax paid is at
    least zero, provided the tax rate is not 0 or ebit is not the infinity
    of an overflow (when both fail the product is no number). *)
Theorem tax_paid_not_negative (i : Inputs) :
  valid_inputs i ->
  tax_rate i <> 0%Z \/ (ebit i =? infinity) = false ->
  (0 <=? tax_paid i) = true.
Proof.
  intros Hi H. destruct (tax_fractions (tax_rate i)) as [Hq [Hqi [_ Hq0]]];
    [destruct Hi; assumption|].
  unfold tax_paid. destruct (0 <? ebit i) eqn:He; [|reflexivity].
  apply mul_nonneg.
  - rewrite leb_spec. rewrite ltb_spec in He. unfold SFleb, SFltb in *.
    destruct (SFcompare (Prim2SF 0) (Prim2SF (ebit i))) as [[| |]|];
      try discriminate He; reflexivity.
  - exact Hq.
  - destruct H as [H|H]; [right; apply Hq0; exact H|left; exact H].
  - left. exact Hqi.
Qed.

Lemma tax_paid_not_negative_witness :
  valid_inputs example_inputs
  /\ (tax_rate example_inputs <> 0%Z \/ (ebit example_inputs =? infinity) = false)
  /\ (0 <=? tax_paid example_inputs) = true.
Proof.
  assert (H : tax_rate example_inputs <> 0%Z \/ (ebit example_inputs =? infinity) = false)
    by (right; reflexivity).
  split; [exact example_inputs_valid|]. split; [exact H|].
  exact (tax_paid_not_negative example_inputs example_inputs_valid H).
Defined.

Lemma zero_tax_inputs_valid : valid_inputs zero_tax_inputs.
Proof. constructor; cbn; try lia; split; reflexivity. Qed.

Section Tax.

Variable pow : float -> Z -> float.

(** X10. At a tax rate of 0 the two net-income formulas agree: for every
    valid input whose ebit is not the infinity of an overflow, the tax paid
    is +0.0, the net income is ebit, and the Base Case scenario reproduces
    the base net income and the base NPV exactly. *)
Theorem zero_tax_rate (i : Inputs) (custom : factor -> Z) :
  valid_inputs i ->
  tax_rate i = 0%Z ->
  (ebit i =? infinity) = false ->
  tax_paid i = 0
  /\ net_income i = ebit i
  /\ forall a : Adjusted,
       scenario_financials pow i (changes BaseCase custom) = Ok a ->
       adj_net_income a = net_income i /\ npv pow i = Ok (adj_npv a).
Proof.
  intros _ Ht Hf.
  assert (Htax : tax_paid i = 0).
  { unfold tax_paid. rewrite Ht. change (int_truediv 0 100) with 0.
    destruct (0 <? ebit i) eqn:He; [|reflexivity].
    apply pos_mul_zero; assumption. }
  assert (Hnet : net_income i = ebit i).
  { unfold net_income. rewrite Htax. apply sub_zero_r. }
  split; [exact Htax|]. split; [exact Hnet|].
  intros a Ha.
  destruct (base_case_fields pow i custom a Ha) as [_ [_ [Hu [_ Heq]]]].
  assert (Hn : adj_net_income a = net_income i).
  { rewrite Hu, Hnet. unfold untaxed_share. rewrite Ht.
    change (1 - int_truediv 0 100) with 1. rewrite mul_one_r.
    destruct (0 <? ebit i); reflexivity. }
  split; [exact Hn|apply Heq; exact Hn].
Qed.

(** X11. A profit stays a profit after tax: for every valid input whose
    ebit is finite and at least the smallest normal number, the tax paid
    is below ebit and the net income is above zero; and in every scenario
    and every row of the sweep, a recomputed ebit from the smallest normal
    number up leaves a recomputed net income above zero. *)
Theorem profit_after_tax (i : Inputs) :
  valid_inputs i ->
  ((0x1p-1022 <=? ebit i) = true -> (ebit i <? infinity) = true ->
   (tax_paid i <? ebit i) = true /\ (0 <? net_income i) = true)
  /\ (forall (div : float -> float -> py float)
             (adj_sales adj_price adj_vc adj_fc : float) (a : Adjusted),
        recalculate pow div i adj_sales adj_price adj_vc adj_fc = Ok a ->
        (0x1p-1022 <=? adj_ebit a) = true -> (0 <? adj_net_income a) = true).
Proof.
  intro Hi.
  destruct (tax_fractions (tax_rate i)) as [_ [_ [Hc Hq]]]; [destruct Hi; assumption|].
  split.
  - intros Hn Hfin.
    assert (Htax : (tax_paid i <? ebit i) = true).
    { unfold tax_paid. rewrite (normal_pos _ Hn).
      destruct (Z.eq_dec (tax_rate i) 0) as [H0|H0].
      - rewrite H0. change (int_truediv 0 100) with 0.
        rewrite pos_mul_zero; [apply normal_pos; exact Hn|apply normal_pos; exact Hn|].
        apply below_infinity. exact Hfin.
      - destruct (Hq H0) as [_ [H7 Hh]]. apply mul_lt_self; assumption. }
    split; [exact Htax|].
    unfold net_income. rewrite sub_pos_ltb. exact Htax.
  - intros div adj_sales adj_price adj_vc adj_fc a Ha Hn.
    apply recalculate_Ok in Ha. destruct Ha as [dcf [_ ->]].
    cbn [adj_ebit adj_net_income] in *.
    rewrite (normal_pos _ Hn). apply mul_positive; assumption.
Qed.

End Tax.

Lemma zero_tax_rate_witness :
  valid_inputs zero_tax_inputs
  /\ tax_rate zero_tax_inputs = 0%Z
  /\ (ebit zero_tax_inputs =? infinity) = false
  /\ tax_paid zero_tax_inputs = 0
  /\ net_income zero_tax_inputs = ebit zero_tax_inputs.
Proof.
  split; [exact zero_tax_inputs_valid|]. split; [reflexivity|]. split; [reflexivity|].
  destruct (zero_tax_rate pow_cr zero_tax_inputs (fun _ => 0%Z) zero_tax_inputs_valid
              eq_refl eq_refl) as [Ht [Hn _]].
  split; [exact Ht|exact Hn].
Defined.

Lemma profit_after_tax_witness :
  valid_inputs example_inputs
  /\ (tax_paid example_inputs <? ebit example_inputs) = true
  /\ (0 <? net_income example_inputs) = true.
Proof.
  split; [exact example_inputs_valid|].
  exact (proj1 (profit_after_tax pow_cr example_inputs example_inputs_valid)
           eq_refl eq_refl).
Defined.
